(** * WhatsAppsBot: store, orchestrator and HTTP surface

    A shallow embedding of the bot's three source modules:

    - [Database]        the SQLite wrapper (subscribers and messages tables),
    - [WhatsAppService] the orchestrator around the chat client,
    - [ApiServer]       the express routes.

    The chat client, the SQL engine, [qrcode] and [console] are external.
    Every call into them is recorded in a chronological trace, and whether
    such a call fails is decided by an environment [Env], asked at the
    position the call takes in the trace.  A promise is its outcome
    ([Resolved] or [Rejected]); [await] runs the computation; [try]/[catch]
    is [try_catch].  Each handler and each API method runs to completion
    before the next one starts (interleaving of two handlers across an
    [await] is not modelled). *)

From Stdlib Require Import List String Ascii ZArith Lia Bool Arith Sorted.
Import ListNotations.
Local Open Scope string_scope.
Local Open Scope list_scope.

Infix "+++" := String.append (right associativity, at level 60).

(** ** JavaScript values used by the bot *)
Module Js.

(** An [Error] object, identified by its message. *)
Definition Error : Type := string.

(** How a promise settles. *)
Inductive Outcome (A : Type) : Type :=
| Resolved (a : A)
| Rejected (e : Error).
Arguments Resolved {A} a.
Arguments Rejected {A} e.

(** Strings are byte strings.  [toLowerCase] acts on the letters A-Z and
    leaves every other byte alone.  JavaScript also lowers letters outside
    ASCII, but none of those lowers to a letter of the command table
    (h o l a i n f y u d e p) on its own, so the comparison with the table
    has the same answer. *)
Definition lower (c : ascii) : ascii :=
  let n := nat_of_ascii c in
  if ((65 <=? n) && (n <=? 90))%nat then ascii_of_nat (n + 32) else c.

Fixpoint toLowerCase (s : string) : string :=
  match s with
  | EmptyString => EmptyString
  | String c r => String (lower c) (toLowerCase r)
  end.

(** [s.split(sep)] for a separator of one character. *)
Fixpoint split (sep : ascii) (s : string) : list string :=
  match s with
  | EmptyString => [EmptyString]
  | String c r =>
      if Ascii.eqb c sep then EmptyString :: split sep r
      else match split sep r with
           | piece :: pieces => String c piece :: pieces
           | [] => [String c EmptyString]
           end
  end.

(** [!v] is false exactly for a string that is there and not empty; a
    missing property is [undefined]. *)
Definition truthy (v : option string) : bool :=
  match v with
  | Some s => negb (s =? "")
  | None => false
  end.

Definition nl : string := String (ascii_of_nat 10) EmptyString.
Definition dquote : string := String (ascii_of_nat 34) EmptyString.

End Js.
Import Js.

(** ** The tables of data/whatsapp.db *)

(** A row of [subscribers]. *)
Record Subscriber : Type := mkSubscriber {
  id : Z;
  whatsapp_id : string;
  phone_number : string;
  first_message : string;
  subscribed_at : Z
}.

(** A row of [messages]. *)
Record MessageRow : Type := mkMessageRow {
  msg_id : Z;
  msg_whatsapp_id : string;
  msg_message : string;
  received_at : Z
}.

(** Both tables in rowid order, with the AUTOINCREMENT counters kept in
    sqlite_sequence. *)
Record Tables : Type := mkTables {
  subscribers : list Subscriber;
  messages : list MessageRow;
  seq_subscribers : Z;
  seq_messages : Z
}.

Definition empty_tables : Tables :=
  {| subscribers := []; messages := []; seq_subscribers := 0; seq_messages := 0 |}.

(** The two statements handed to [db.run]. *)
Inductive Statement : Type :=
| InsertOrIgnoreSubscriber (whatsappId phoneNumber firstMessage : string)
| InsertMessage (whatsappId message : string).

(** ** The trace of calls that leave the program *)
Inductive Event : Type :=
| ConsoleLog (text : string) (detail : option string)
| ConsoleError (text : string) (detail : option Error)
| QrcodeGenerate (qr : string) (err : option Error)
| DbRun (sql : Statement) (err : option Error)
| DbAll (err : option Error)
| ClientInitialize (err : option Error)
| ClientSendMessage (to content : string) (err : option Error)
| MsgReply (chat content : string) (err : option Error).

(** What the outside world answers.  The first argument is the number of
    events that happened before the call. *)
Record Env : Type := mkEnv {
  sqlite_err : nat -> option Error;
  current_timestamp : nat -> Z;
  client_initialize_err : nat -> option Error;
  client_sendMessage_err : nat -> string -> string -> option Error;
  msg_reply_err : nat -> string -> string -> option Error;
  qrcode_err : nat -> option Error
}.

(** The mutable state: [WhatsAppService.isReady], the database file and the
    trace. *)
Record World : Type := mkWorld {
  isReady : bool;
  tables : Tables;
  trace : list Event
}.

Definition initial_world : World :=
  {| isReady := false; tables := empty_tables; trace := [] |}.

Definition set_isReady (b : bool) (w : World) : World :=
  {| isReady := b; tables := tables w; trace := trace w |}.

Definition set_tables (t : Tables) (w : World) : World :=
  {| isReady := isReady w; tables := t; trace := trace w |}.

Definition push (e : Event) (w : World) : World :=
  {| isReady := isReady w; tables := tables w; trace := trace w ++ [e] |}.

Definition pushes (evs : list Event) (w : World) : World :=
  {| isReady := isReady w; tables := tables w; trace := trace w ++ evs |}.

(** ** Asynchronous computations *)
Definition M (A : Type) : Type := Env -> World -> World * Outcome A.

Definition ret {A} (a : A) : M A := fun _ w => (w, Resolved a).

Definition throw {A} (e : Error) : M A := fun _ w => (w, Rejected e).

Definition bind {A B} (m : M A) (k : A -> M B) : M B :=
  fun env w =>
    match m env w with
    | (w', Resolved a) => k a env w'
    | (w', Rejected e) => (w', Rejected e)
    end.

Definition try_catch {A} (body : M A) (handler : Error -> M A) : M A :=
  fun env w =>
    match body env w with
    | (w', Resolved a) => (w', Resolved a)
    | (w', Rejected e) => handler e env w'
    end.

Declare Scope js_scope.
Delimit Scope js_scope with js.
Notation "x <- m ;; k" := (bind m (fun x => k))
  (at level 100, m at next level, right associativity) : js_scope.
Notation "m ;; k" := (bind m (fun _ => k))
  (at level 100, right associativity) : js_scope.
Local Open Scope js_scope.

Definition emit (e : Event) : M unit := fun _ w => (push e w, Resolved tt).

Definition console_log (text : string) (detail : option string) : M unit :=
  emit (ConsoleLog text detail).

Definition console_error (text : string) (detail : option Error) : M unit :=
  emit (ConsoleError text detail).

(** ** src/config/database.js *)
Module Database.

Definition has_id (whatsappId : string) (row : Subscriber) : bool :=
  whatsapp_id row =? whatsappId.

(** What the engine does with a statement it accepts, at time [now].
    [INSERT OR IGNORE] skips the row when the UNIQUE column [whatsapp_id]
    already holds the value; the skipped insert has taken its rowid all the
    same, so the AUTOINCREMENT counter of [subscribers] moves on and the
    rows stay.  [subscribed_at] and [received_at] default to
    CURRENT_TIMESTAMP; the foreign key of [messages] is declared but not
    enforced (the connection never turns foreign keys on). *)
Definition exec (sql : Statement) (now : Z) (t : Tables) : Tables :=
  match sql with
  | InsertOrIgnoreSubscriber whatsappId phoneNumber firstMessage =>
      if existsb (has_id whatsappId) (subscribers t) then
        {| subscribers := subscribers t;
           messages := messages t;
           seq_subscribers := seq_subscribers t + 1;
           seq_messages := seq_messages t |}
      else
        {| subscribers :=
             subscribers t ++
             [ {| id := seq_subscribers t + 1;
                  whatsapp_id := whatsappId;
                  phone_number := phoneNumber;
                  first_message := firstMessage;
                  subscribed_at := now |} ];
           messages := messages t;
           seq_subscribers := seq_subscribers t + 1;
           seq_messages := seq_messages t |}
  | InsertMessage whatsappId message =>
      {| subscribers := subscribers t;
         messages :=
           messages t ++
           [ {| msg_id := seq_messages t + 1;
                msg_whatsapp_id := whatsappId;
                msg_message := message;
                received_at := now |} ];
         seq_subscribers := seq_subscribers t;
         seq_messages := seq_messages t + 1 |}
  end.

(** [this.db.run(query, params, callback)]: the value is the [err] the
    callback receives. *)
Definition db_run (sql : Statement) : M (option Error) :=
  fun env w =>
    let i := List.length (trace w) in
    match sqlite_err env i with
    | Some e => (push (DbRun sql (Some e)) w, Resolved (Some e))
    | None =>
        (push (DbRun sql None)
           (set_tables (exec sql (current_timestamp env i) (tables w)) w),
         Resolved None)
    end.

(** [this.db.all('SELECT * FROM subscribers', [], callback)]: the value is
    the pair [(err, rows)] the callback receives. *)
Definition db_all : M (option Error * list Subscriber) :=
  fun env w =>
    let i := List.length (trace w) in
    match sqlite_err env i with
    | Some e => (push (DbAll (Some e)) w, Resolved (Some e, []))
    | None => (push (DbAll None) w, Resolved (None, subscribers (tables w)))
    end.

Definition addSubscriber (whatsappId phoneNumber firstMessage : string) : M bool :=
  err <- db_run (InsertOrIgnoreSubscriber whatsappId phoneNumber firstMessage) ;;
  match err with
  | Some e =>
      console_error "❌ Error adding subscriber:" (Some e) ;;
      throw e
  | None =>
      console_log ("✅ Subscriber added or already exists: " +++ whatsappId) None ;;
      ret true
  end.

Definition logMessage (whatsappId message : string) : M bool :=
  err <- db_run (InsertMessage whatsappId message) ;;
  match err with
  | Some e =>
      console_error "❌ Error logging message:" (Some e) ;;
      throw e
  | None =>
      console_log ("✅ Message logged for: " +++ whatsappId) None ;;
      ret true
  end.

Definition getAllSubscribers : M (list Subscriber) :=
  res <- db_all ;;
  match res with
  | (Some e, _) =>
      console_error "❌ Error getting subscribers:" (Some e) ;;
      throw e
  | (None, rows) => ret rows
  end.

(** How a promise settles when its executor called [resolve] and [reject]
    in the order of [calls]: the first call decides, the later ones are
    ignored, and with no call the promise stays pending. *)
Definition settled_by {A} (calls : list (Outcome A)) : option (Outcome A) :=
  match calls with
  | [] => None
  | call :: _ => Some call
  end.

(** [createTables()].  Inside [db.serialize] the two CREATE TABLE IF NOT
    EXISTS statements run one after the other, each with its own callback;
    [err1] and [err2] are what the engine hands to the two callbacks.  Only
    the callback of the second statement calls [resolve].  The value is the
    console lines in order and how the promise settles. *)
Definition createTables (err1 err2 : option Error) : list Event * option (Outcome unit) :=
  let '(lines1, calls1) :=
    match err1 with
    | Some e =>
        ([ConsoleError "❌ Error creating subscribers table:" (Some e)], [Rejected e])
    | None => ([ConsoleLog "✅ Subscribers table ready" None], [])
    end in
  let '(lines2, calls2) :=
    match err2 with
    | Some e =>
        ([ConsoleError "❌ Error creating messages table:" (Some e)], [Rejected e])
    | None => ([ConsoleLog "✅ Messages table ready" None], [Resolved tt])
    end in
  (lines1 ++ lines2, settled_by (calls1 ++ calls2)).

End Database.

(** ** src/services/whatsappService.js *)
Module WhatsAppService.

(** An inbound message of the chat client.  [dump] is what
    [JSON.stringify(msg, null, 2)] gives for it. *)
Record Msg : Type := mkMsg {
  from : string;
  body : string;
  dump : string
}.

(** The value [{ success, failed }] of a broadcast. *)
Record Tally : Type := mkTally {
  success : nat;
  failed : nat
}.

(** The events the client can fire at the listeners of [setupEventHandlers]. *)
Inductive ClientEvent : Type :=
| Qr (qr : string)
| Ready
| Disconnected (reason : string)
| Message (msg : Msg)
| AuthFailure (error : Error).

Definition get_isReady : M bool := fun _ w => (w, Resolved (isReady w)).

Definition put_isReady (b : bool) : M unit := fun _ w => (set_isReady b w, Resolved tt).

Definition settle (err : option Error) : Outcome unit :=
  match err with
  | Some e => Rejected e
  | None => Resolved tt
  end.

(** [this.client.initialize()] *)
Definition client_initialize : M unit :=
  fun env w =>
    let err := client_initialize_err env (List.length (trace w)) in
    (push (ClientInitialize err) w, settle err).

(** [this.client.sendMessage(to, content)] *)
Definition client_sendMessage (to content : string) : M unit :=
  fun env w =>
    let err := client_sendMessage_err env (List.length (trace w)) to content in
    (push (ClientSendMessage to content err) w, settle err).

(** [msg.reply(content)] *)
Definition msg_reply (msg : Msg) (content : string) : M unit :=
  fun env w =>
    let err := msg_reply_err env (List.length (trace w)) (from msg) content in
    (push (MsgReply (from msg) content err) w, settle err).

(** [qrcode.generate(qr, { small: true })] *)
Definition qrcode_generate (qr : string) : M unit :=
  fun env w =>
    let err := qrcode_err env (List.length (trace w)) in
    (push (QrcodeGenerate qr err) w, settle err).

(** [initialize()].  The handler given to [.catch] is run where the promise
    of [client.initialize()] settles. *)
Definition initialize : M bool :=
  try_catch
    (try_catch client_initialize
       (fun error => console_error "❌ Error initializing WhatsApp client:" (Some error)) ;;
     ret true)
    (fun error =>
       console_error "❌ Error setting up WhatsApp client:" (Some error) ;;
       ret false).

Definition greeting : string := "¡Hola! Soy un bot de WhatsApp 🤖".

Definition info_reply (msg : Msg) : string :=
  "Aquí está tu info:" +++ nl +++ dump msg.

Definition help_text : string :=
  "Comandos disponibles:" +++ nl +++ "- hola: Saludo" +++ nl +++
  "- !info: Ver información del mensaje" +++ nl +++ "- !ayuda: Ver esta ayuda".

Definition handleCommands (msg : Msg) : M unit :=
  try_catch
    (let command := toLowerCase (body msg) in
     if command =? "hola" then msg_reply msg greeting
     else if command =? "!info" then msg_reply msg (info_reply msg)
     else if (command =? "!ayuda") || (command =? "!help") then msg_reply msg help_text
     else ret tt)
    (fun error => console_error "❌ Error handling commands:" (Some error)).

(** [from.split('@')[0]].  [split] never gives an empty array, so the
    [undefined] of an index out of range does not occur. *)
Definition phoneNumber (from : string) : string :=
  match split "@"%char from with
  | piece :: _ => piece
  | [] => "undefined"
  end.

Definition on_qr (qr : string) : M unit :=
  try_catch
    (console_log "Escanea este QR con el número del bot:" None ;;
     qrcode_generate qr)
    (fun error => console_error "❌ Error generating QR code:" (Some error)).

Definition on_ready : M unit :=
  try_catch
    (put_isReady true ;;
     console_log "✅ Bot está listo!" None)
    (fun error => console_error "❌ Error in ready event:" (Some error)).

(** The listener of [disconnected].  As in [initialize], the handler given
    to [.catch] is run where the promise of [client.initialize()] settles. *)
Definition on_disconnected (reason : string) : M unit :=
  try_catch
    (put_isReady false ;;
     console_log "❌ Bot desconectado:" (Some reason) ;;
     try_catch client_initialize
       (fun error => console_error "❌ Error reconnecting WhatsApp client:" (Some error)))
    (fun error => console_error "❌ Error handling disconnection:" (Some error)).

Definition on_message (msg : Msg) : M unit :=
  try_catch
    (console_log ("📩 Mensaje recibido de " +++ from msg +++ ": " +++ body msg) None ;;
     Database.addSubscriber (from msg) (phoneNumber (from msg)) (body msg) ;;
     Database.logMessage (from msg) (body msg) ;;
     handleCommands msg)
    (fun error => console_error "❌ Error processing message:" (Some error)).

Definition on_auth_failure (error : Error) : M unit :=
  console_error "❌ Authentication failed:" (Some error).

(** The listeners registered by [setupEventHandlers]. *)
Definition on (ev : ClientEvent) : M unit :=
  match ev with
  | Qr qr => on_qr qr
  | Ready => on_ready
  | Disconnected reason => on_disconnected reason
  | Message msg => on_message msg
  | AuthFailure error => on_auth_failure error
  end.

Definition sendMessage (to message : string) : M bool :=
  try_catch
    (ready <- get_isReady ;;
     if negb ready then
       console_error "❌ WhatsApp client not ready" None ;;
       ret false
     else
       client_sendMessage to message ;;
       console_log ("✅ Message sent to " +++ to) None ;;
       ret true)
    (fun error =>
       console_error ("❌ Error sending message to " +++ to +++ ":") (Some error) ;;
       ret false).

(** One turn of the [for ... of] loop: the [try] adds one to [success], the
    [catch] adds one to [failed]. *)
Definition broadcast_one (message : string) (subscriber : Subscriber)
    (counters : nat * nat) : M (nat * nat) :=
  let '(success, failed) := counters in
  try_catch
    (client_sendMessage (whatsapp_id subscriber) message ;;
     console_log ("✅ Broadcast message sent to " +++ whatsapp_id subscriber) None ;;
     ret (S success, failed))
    (fun error =>
       console_error ("❌ Error sending broadcast to " +++ whatsapp_id subscriber +++ ":")
         (Some error) ;;
       ret (success, S failed)).

Fixpoint broadcast_loop (message : string) (subscribers : list Subscriber)
    (counters : nat * nat) : M Tally :=
  match subscribers with
  | [] => ret {| success := fst counters; failed := snd counters |}
  | subscriber :: rest =>
      counters' <- broadcast_one message subscriber counters ;;
      broadcast_loop message rest counters'
  end.

Definition broadcastMessage (message : string) : M Tally :=
  try_catch
    (ready <- get_isReady ;;
     if negb ready then
       console_error "❌ WhatsApp client not ready" None ;;
       ret {| success := 0; failed := 0 |}
     else
       subscribers <- Database.getAllSubscribers ;;
       broadcast_loop message subscribers (0, 0))
    (fun error =>
       console_error "❌ Error broadcasting message:" (Some error) ;;
       ret {| success := 0; failed := 0 |}).

End WhatsAppService.

(** ** src/api/server.js *)
Module ApiServer.

(** The JSON values the routes answer with. *)
#[warnings="-register-all"]
Inductive Json : Type :=
| JBool (b : bool)
| JNum (n : nat)
| JStr (s : string)
| JObj (fields : list (string * Json)).

(** The object [req.body] when body-parser has parsed one: the two
    properties the routes read, each a string when it is there.  A request
    whose [req.body] is [undefined] (no body was parsed) is [None] of
    [option Body]. *)
Record Body : Type := mkBody {
  to : option string;
  message : option string
}.

(** [res.status(status).json(json)]; [res.json] alone answers 200. *)
Record Response : Type := mkResponse {
  status : nat;
  json : Json
}.

(** The string behind a property that passed the [!v] test. *)
Definition the (v : option string) : string :=
  match v with
  | Some s => s
  | None => "undefined"
  end.

Definition field (key : string) (j : Json) : option Json :=
  match j with
  | JObj fields =>
      match find (fun kv => fst kv =? key) fields with
      | Some kv => Some (snd kv)
      | None => None
      end
  | _ => None
  end.

Definition get_root : M Response :=
  ret {| status := 200; json := JObj [("status", JStr "WhatsApp Bot API is running")] |}.

(** [const { property, ... } = req.body]: destructuring [undefined] throws
    a TypeError that names the first property of the pattern. *)
Definition destructure (property : string) (req_body : option Body) : M Body :=
  match req_body with
  | Some body => ret body
  | None =>
      throw ("Cannot destructure property '" +++ property +++
             "' of 'req.body' as it is undefined.")
  end.

Definition post_api_broadcast (req_body : option Body) : M Response :=
  try_catch
    (body <- destructure "message" req_body ;;
     let message := message body in
     if negb (truthy message) then
       ret {| status := 400;
              json := JObj [("success", JBool false);
                            ("error", JStr "Message is required")] |}
     else
       result <- WhatsAppService.broadcastMessage (the message) ;;
       ret {| status := 200;
              json := JObj [("success", JBool true);
                            ("message", JStr "Broadcast sent");
                            ("stats",
                             JObj [("success", JNum (WhatsAppService.success result));
                                   ("failed", JNum (WhatsAppService.failed result))])] |})
    (fun error =>
       console_error "❌ Error in broadcast endpoint:" (Some error) ;;
       ret {| status := 500;
              json := JObj [("success", JBool false);
                            ("error", JStr "Failed to send broadcast message")] |}).

Definition both_required : string :=
  "Both " +++ dquote +++ "to" +++ dquote +++ " and " +++
  dquote +++ "message" +++ dquote +++ " are required".

Definition post_api_send (req_body : option Body) : M Response :=
  try_catch
    (body <- destructure "to" req_body ;;
     let to := to body in
     let message := message body in
     if negb (truthy to) || negb (truthy message) then
       ret {| status := 400;
              json := JObj [("success", JBool false);
                            ("error", JStr both_required)] |}
     else
       success <- WhatsAppService.sendMessage (the to) (the message) ;;
       if success then
         ret {| status := 200;
                json := JObj [("success", JBool true);
                              ("message", JStr "Message sent successfully")] |}
       else
         ret {| status := 500;
                json := JObj [("success", JBool false);
                              ("error", JStr "Failed to send message")] |})
    (fun error =>
       console_error "❌ Error in send message endpoint:" (Some error) ;;
       ret {| status := 500;
              json := JObj [("success", JBool false);
                            ("error", JStr "Failed to send message")] |}).

Definition not_found : M Response :=
  ret {| status := 404;
         json := JObj [("success", JBool false);
                       ("error", JStr "Endpoint not found")] |}.

End ApiServer.

(** ** Reading a run *)

Definition world_after {A} (m : M A) (env : Env) (w : World) : World := fst (m env w).

Definition outcome {A} (m : M A) (env : Env) (w : World) : Outcome A := snd (m env w).

(** The events a run added to the trace. *)
Definition emitted (w w' : World) : list Event :=
  skipn (List.length (trace w)) (trace w').

Definition events {A} (m : M A) (env : Env) (w : World) : list Event :=
  emitted w (world_after m env w).

(** A computation only ever adds to the trace. *)
Definition extends {A} (m : M A) : Prop :=
  forall env w, exists evs, trace (world_after m env w) = trace w ++ evs.

(** The contents handed to [msg.reply], in order. *)
Fixpoint replies (evs : list Event) : list string :=
  match evs with
  | [] => []
  | MsgReply _ content _ :: rest => content :: replies rest
  | _ :: rest => replies rest
  end.

(** The calls of [client.sendMessage], in order: target, content and how
    the call settled. *)
Fixpoint sends (evs : list Event) : list (string * string * option Error) :=
  match evs with
  | [] => []
  | ClientSendMessage to content err :: rest => (to, content, err) :: sends rest
  | _ :: rest => sends rest
  end.

(** The number of [SELECT * FROM subscribers] issued. *)
Fixpoint reads (evs : list Event) : nat :=
  match evs with
  | [] => 0
  | DbAll _ :: rest => S (reads rest)
  | _ :: rest => reads rest
  end.

(** The number of calls of [client.initialize()]. *)
Fixpoint initializations (evs : list Event) : nat :=
  match evs with
  | [] => 0
  | ClientInitialize _ :: rest => S (initializations rest)
  | _ :: rest => initializations rest
  end.

Definition is_none {A} (o : option A) : bool :=
  match o with
  | None => true
  | Some _ => false
  end.

Definition resolved {A} (r : Outcome A) : bool :=
  match r with
  | Resolved _ => true
  | Rejected _ => false
  end.

(** Of a list of calls of [client.sendMessage]: where each went and with
    what content, how many were delivered and how many were not. *)
Definition addressed (calls : list (string * string * option Error)) : list (string * string) :=
  map fst calls.

Definition delivered (calls : list (string * string * option Error)) : nat :=
  List.length (filter (fun call => is_none (snd call)) calls).

Definition undelivered (calls : list (string * string * option Error)) : nat :=
  List.length (filter (fun call => negb (is_none (snd call))) calls).

(** The engine accepts every statement. *)
Definition engine_healthy (env : Env) : Prop :=
  forall i, sqlite_err env i = None.

(** The clock behind CURRENT_TIMESTAMP does not run backwards. *)
Definition clock_monotone (env : Env) : Prop :=
  forall i j, i <= j -> (current_timestamp env i <= current_timestamp env j)%Z.

(** Every variant of a string obtained by writing some of its lower-case
    letters in upper case. *)
Definition upper (c : ascii) : ascii :=
  let n := nat_of_ascii c in
  if ((97 <=? n) && (n <=? 122))%nat then ascii_of_nat (n - 32) else c.

Fixpoint casings (s : string) : list string :=
  match s with
  | EmptyString => [EmptyString]
  | String c r =>
      flat_map
        (fun t => if Ascii.eqb (upper c) c then [String c t]
                  else [String c t; String (upper c) t])
        (casings r)
  end.

(** The UNIQUE constraint on [subscribers.whatsapp_id]. *)
Definition unique_identities (t : Tables) : Prop :=
  NoDup (map whatsapp_id (subscribers t)).

(** The subscriber rows of one identity. *)
Definition rows_of (whatsappId : string) (t : Tables) : list Subscriber :=
  filter (Database.has_id whatsappId) (subscribers t).

(** One call of [logMessage] per text, for the same identity, each awaited
    on its own: the outcomes are collected, a rejected call does not stop
    the next. *)
Fixpoint logMessages (whatsappId : string) (texts : list string)
    (env : Env) (w : World) : World * list (Outcome bool) :=
  match texts with
  | [] => (w, [])
  | text :: rest =>
      let '(w1, r) := Database.logMessage whatsappId text env w in
      let '(w2, rs) := logMessages whatsappId rest env w1 in
      (w2, r :: rs)
  end.

(** The clock readings of the calls of [logMessage] that resolved, when the
    first call starts at position [start] of the trace.  A call adds two
    events, resolved or rejected, so the next one starts two positions
    later. *)
Fixpoint readings (env : Env) (start : nat) (outcomes : list (Outcome bool)) : list Z :=
  match outcomes with
  | [] => []
  | Resolved _ :: rest => current_timestamp env start :: readings env (start + 2) rest
  | Rejected _ :: rest => readings env (start + 2) rest
  end.

(** The listeners run on the events the client fires, one after the
    other. *)
Fixpoint dispatch (history : list WhatsAppService.ClientEvent) (env : Env) (w : World) : World :=
  match history with
  | [] => w
  | ev :: rest => dispatch rest env (world_after (WhatsAppService.on ev) env w)
  end.

Definition is_disconnected (ev : WhatsAppService.ClientEvent) : bool :=
  match ev with
  | WhatsAppService.Disconnected _ => true
  | _ => false
  end.

Definition disconnections (history : list WhatsAppService.ClientEvent) : nat :=
  List.length (filter is_disconnected history).

(** A relation between the state before and the state after that a
    computation keeps, whatever the outside world answers. *)
Definition keeps (R : World -> World -> Prop) {A} (m : M A) : Prop :=
  forall env w, R w (world_after m env w).

Definition same_store (w w' : World) : Prop := tables w' = tables w.

Definition same_ready (w w' : World) : Prop := isReady w' = isReady w.

(** Both tables are as they were, with rows added at the end. *)
Definition grows (w w' : World) : Prop :=
  exists new_subscribers new_messages,
    subscribers (tables w') = subscribers (tables w) ++ new_subscribers /\
    messages (tables w') = messages (tables w) ++ new_messages.

(** The ready flag after a history of client events, had it been [ready]
    before: the last ready or disconnected event decides. *)
Fixpoint ready_after (history : list WhatsAppService.ClientEvent) (ready : bool) : bool :=
  match history with
  | [] => ready
  | WhatsAppService.Ready :: rest => ready_after rest true
  | WhatsAppService.Disconnected _ :: rest => ready_after rest false
  | _ :: rest => ready_after rest ready
  end.

Definition is_message (ev : WhatsAppService.ClientEvent) : bool :=
  match ev with
  | WhatsAppService.Message _ => true
  | _ => false
  end.

(** The reply of the command table to a text, when it has one. *)
Definition reply_to (msg : WhatsAppService.Msg) : list string :=
  let command := toLowerCase (WhatsAppService.body msg) in
  if command =? "hola" then [WhatsAppService.greeting]
  else if command =? "!info" then [WhatsAppService.info_reply msg]
  else if (command =? "!ayuda") || (command =? "!help") then [WhatsAppService.help_text]
  else [].

(** The identities the store knows after a history of client events, had it
    known [ids] before and had the engine accepted every statement: each
    sender is added once, at its first message. *)
Fixpoint known_after (history : list WhatsAppService.ClientEvent) (ids : list string)
    : list string :=
  match history with
  | [] => ids
  | WhatsAppService.Message msg :: rest =>
      known_after rest
        (if existsb (fun known => known =? WhatsAppService.from msg) ids then ids
         else ids ++ [WhatsAppService.from msg])
  | _ :: rest => known_after rest ids
  end.

(** Every message row names an identity that has a subscriber row: what the
    foreign key of [messages] declares. *)
Definition referential (t : Tables) : Prop :=
  Forall (fun row => In (msg_whatsapp_id row) (map whatsapp_id (subscribers t)))
    (messages t).

(** The inbound messages of a history, in order. *)
Fixpoint messages_of (history : list WhatsAppService.ClientEvent)
    : list WhatsAppService.Msg :=
  match history with
  | [] => []
  | WhatsAppService.Message msg :: rest => msg :: messages_of rest
  | _ :: rest => messages_of rest
  end.

(** Sender and text of a message row. *)
Definition logged (row : MessageRow) : string * string :=
  (msg_whatsapp_id row, msg_message row).

(** ** Scenarios *)

(** An outside world in which nothing fails and the clock ticks once per
    event. *)
Definition calm : Env :=
  {| sqlite_err := fun _ => None;
     current_timestamp := fun i => Z.of_nat i;
     client_initialize_err := fun _ => None;
     client_sendMessage_err := fun _ _ _ => None;
     msg_reply_err := fun _ _ _ => None;
     qrcode_err := fun _ => None |}.

(** As [calm], but the chat "S2@c.us" cannot be reached. *)
Definition s2_unreachable : Env :=
  {| sqlite_err := fun _ => None;
     current_timestamp := fun i => Z.of_nat i;
     client_initialize_err := fun _ => None;
     client_sendMessage_err :=
       fun _ to _ => if to =? "S2@c.us" then Some "chat not found" else None;
     msg_reply_err := fun _ _ _ => None;
     qrcode_err := fun _ => None |}.

(** As [calm], but the SQL engine refuses every statement. *)
Definition engine_down : Env :=
  {| sqlite_err := fun _ => Some "SQLITE_IOERR: disk I/O error";
     current_timestamp := fun i => Z.of_nat i;
     client_initialize_err := fun _ => None;
     client_sendMessage_err := fun _ _ _ => None;
     msg_reply_err := fun _ _ _ => None;
     qrcode_err := fun _ => None |}.

Definition S1 : Subscriber :=
  {| id := 1; whatsapp_id := "S1@c.us"; phone_number := "S1";
     first_message := "hola"; subscribed_at := 10 |}.

Definition S2 : Subscriber :=
  {| id := 2; whatsapp_id := "S2@c.us"; phone_number := "S2";
     first_message := "!help"; subscribed_at := 20 |}.

(** A ready client with the two subscribers S1 and S2. *)
Definition two_subscribers : World :=
  {| isReady := true;
     tables := {| subscribers := [S1; S2]; messages := [];
                  seq_subscribers := 2; seq_messages := 0 |};
     trace := [] |}.

(** The same store before the client is ready. *)
Definition not_ready_yet : World := set_isReady false two_subscribers.

(** As [calm], but the engine refuses the statement issued as fourth
    event. *)
Definition fourth_refused : Env :=
  {| sqlite_err := fun i => if Nat.eqb i 3 then Some "SQLITE_FULL: database or disk is full" else None;
     current_timestamp := fun i => Z.of_nat i;
     client_initialize_err := fun _ => None;
     client_sendMessage_err := fun _ _ _ => None;
     msg_reply_err := fun _ _ _ => None;
     qrcode_err := fun _ => None |}.

(** As [calm], but the client cannot connect. *)
Definition no_network : Env :=
  {| sqlite_err := fun _ => None;
     current_timestamp := fun i => Z.of_nat i;
     client_initialize_err := fun _ => Some "net::ERR_INTERNET_DISCONNECTED";
     client_sendMessage_err := fun _ _ _ => None;
     msg_reply_err := fun _ _ _ => None;
     qrcode_err := fun _ => None |}.

(** A greeting from a sender the store does not know. *)
Definition hola_from_S3 : WhatsAppService.Msg :=
  {| WhatsAppService.from := "S3@c.us";
     WhatsAppService.body := "Hola";
     WhatsAppService.dump := "{}" |}.

(** As [calm], within one second of the clock: CURRENT_TIMESTAMP counts
    whole seconds, so every reading is the same. *)
Definition same_second : Env :=
  {| sqlite_err := fun _ => None;
     current_timestamp := fun _ => 1700000000%Z;
     client_initialize_err := fun _ => None;
     client_sendMessage_err := fun _ _ _ => None;
     msg_reply_err := fun _ _ _ => None;
     qrcode_err := fun _ => None |}.

(** ** Proof steps *)

Import WhatsAppService.

(** Normal form of a trace built by successive pushes. *)
Ltac trace_norm :=
  repeat (cbn [trace push pushes set_tables set_isReady isReady tables fst snd] in *;
          rewrite <- ?app_assoc in *);
  cbn [app] in *.

(** Runs every step of a straight-line computation, splitting on each
    answer of the outside world. *)
Ltac step_all :=
  repeat (cbv beta iota delta
            [bind try_catch ret throw emit console_log console_error
             get_isReady put_isReady settle
             client_initialize client_sendMessage msg_reply qrcode_generate
             Database.db_run Database.db_all
             Database.addSubscriber Database.logMessage Database.getAllSubscribers];
          cbv zeta;
          match goal with
          | |- context [match ?x with _ => _ end] =>
              lazymatch x with
              | sqlite_err _ _ => destruct x eqn:?
              | client_initialize_err _ _ => destruct x eqn:?
              | client_sendMessage_err _ _ _ _ => destruct x eqn:?
              | msg_reply_err _ _ _ _ => destruct x eqn:?
              | qrcode_err _ _ => destruct x eqn:?
              | String.eqb _ _ => destruct x eqn:?
              | orb _ _ => destruct x eqn:?
              | negb ?b => destruct b eqn:?; cbn [negb]
              | isReady _ => destruct x eqn:?
              end
          | |- context [if ?x then _ else _] =>
              lazymatch x with
              | String.eqb _ _ => destruct x eqn:?
              | orb _ _ => destruct x eqn:?
              | negb ?b => destruct b eqn:?; cbn [negb]
              | isReady _ => destruct x eqn:?
              end
          end).

(** * Properties *)

(** ** Traces *)

Lemma emitted_app (w w' : World) (evs : list Event) :
  trace w' = trace w ++ evs -> emitted w w' = evs.
Proof.
  unfold emitted. intros ->.
  induction (trace w) as [|e t IH]; simpl; auto.
Qed.

Lemma emitted_refl (w : World) : emitted w w = [].
Proof. apply emitted_app. now rewrite app_nil_r. Qed.

Lemma initializations_app (l1 l2 : list Event) :
  initializations (l1 ++ l2) = initializations l1 + initializations l2.
Proof.
  induction l1 as [|e l1 IH]; simpl; auto.
  destruct e; simpl; auto.
Qed.

Lemma world_ext (a b : World) :
  isReady a = isReady b -> tables a = tables b -> trace a = trace b -> a = b.
Proof.
  destruct a, b. simpl. intros -> -> ->. reflexivity.
Qed.

(** *** Every computation of the bot extends the trace *)

Lemma events_extends {A} (m : M A) (env : Env) (w : World) :
  extends m -> trace (world_after m env w) = trace w ++ events m env w.
Proof.
  intros Hm. destruct (Hm env w) as (evs & Hevs).
  unfold events. now rewrite (emitted_app _ _ _ Hevs).
Qed.

Lemma extends_ret {A} (a : A) : extends (ret a).
Proof. intros env w. exists []. simpl. now rewrite app_nil_r. Qed.

Lemma extends_throw {A} (e : Error) : extends (@throw A e).
Proof. intros env w. exists []. simpl. now rewrite app_nil_r. Qed.

Lemma extends_emit (e : Event) : extends (emit e).
Proof. intros env w. now exists [e]. Qed.

Lemma extends_bind {A B} (m : M A) (k : A -> M B) :
  extends m -> (forall a, extends (k a)) -> extends (bind m k).
Proof.
  intros Hm Hk env w. destruct (Hm env w) as (e1 & H1).
  unfold world_after, bind in *.
  destruct (m env w) as [w1 [a|e]]; cbn [fst] in *.
  - destruct (Hk a env w1) as (e2 & H2). unfold world_after in H2.
    exists (e1 ++ e2). now rewrite H2, H1, app_assoc.
  - now exists e1.
Qed.

Lemma extends_try_catch {A} (body : M A) (handler : Error -> M A) :
  extends body -> (forall e, extends (handler e)) -> extends (try_catch body handler).
Proof.
  intros Hb Hh env w. destruct (Hb env w) as (e1 & H1).
  unfold world_after, try_catch in *.
  destruct (body env w) as [w1 [a|e]]; cbn [fst] in *.
  - now exists e1.
  - destruct (Hh e env w1) as (e2 & H2). unfold world_after in H2.
    exists (e1 ++ e2). now rewrite H2, H1, app_assoc.
Qed.

Lemma extends_get_isReady : extends get_isReady.
Proof. intros env w. exists []. simpl. now rewrite app_nil_r. Qed.

Lemma extends_put_isReady (b : bool) : extends (put_isReady b).
Proof. intros env w. exists []. simpl. now rewrite app_nil_r. Qed.

Lemma extends_client_initialize : extends client_initialize.
Proof. intros env w. eexists [_]. reflexivity. Qed.

Lemma extends_client_sendMessage (to content : string) :
  extends (client_sendMessage to content).
Proof. intros env w. eexists [_]. reflexivity. Qed.

Lemma extends_msg_reply (msg : Msg) (content : string) : extends (msg_reply msg content).
Proof. intros env w. eexists [_]. reflexivity. Qed.

Lemma extends_qrcode_generate (qr : string) : extends (qrcode_generate qr).
Proof. intros env w. eexists [_]. reflexivity. Qed.

Lemma extends_db_run (sql : Statement) : extends (Database.db_run sql).
Proof.
  intros env w. unfold world_after, Database.db_run.
  destruct (sqlite_err env (List.length (trace w))); eexists [_]; reflexivity.
Qed.

Lemma extends_db_all : extends Database.db_all.
Proof.
  intros env w. unfold world_after, Database.db_all.
  destruct (sqlite_err env (List.length (trace w))); eexists [_]; reflexivity.
Qed.

Create HintDb extends.
#[local] Hint Resolve extends_ret extends_throw extends_emit
  extends_get_isReady extends_put_isReady extends_client_initialize
  extends_client_sendMessage extends_msg_reply extends_qrcode_generate
  extends_db_run extends_db_all : extends.

(** Splits a computation along its binds, handlers and branches. *)
Ltac extends_steps :=
  repeat first
    [ apply extends_bind; [|intros ?]
    | apply extends_try_catch; [|intros ?]
    | match goal with
      | |- extends (if ?b then _ else _) => destruct b
      | |- extends (match ?x with _ => _ end) => destruct x
      | |- extends (let '(_, _) := ?x in _) => destruct x
      end
    | progress unfold console_log, console_error
    | solve [auto with extends] ].

Lemma extends_addSubscriber (i p m : string) : extends (Database.addSubscriber i p m).
Proof. unfold Database.addSubscriber. extends_steps. Qed.

Lemma extends_logMessage (i m : string) : extends (Database.logMessage i m).
Proof. unfold Database.logMessage. extends_steps. Qed.

Lemma extends_getAllSubscribers : extends Database.getAllSubscribers.
Proof. unfold Database.getAllSubscribers. extends_steps. Qed.

Lemma extends_handleCommands (msg : Msg) : extends (handleCommands msg).
Proof. unfold handleCommands. cbv zeta. extends_steps. Qed.

#[local] Hint Resolve extends_addSubscriber extends_logMessage
  extends_getAllSubscribers extends_handleCommands : extends.

Lemma extends_on (ev : ClientEvent) : extends (on ev).
Proof.
  destruct ev; unfold on, on_qr, on_ready, on_disconnected, on_message, on_auth_failure;
    extends_steps.
Qed.

Lemma extends_sendMessage (to message : string) : extends (sendMessage to message).
Proof. unfold sendMessage. extends_steps. Qed.

Lemma extends_broadcast_loop (message : string) (subs : list Subscriber) :
  forall counters, extends (broadcast_loop message subs counters).
Proof.
  induction subs as [|s subs IH]; intros counters; cbn [broadcast_loop].
  - auto with extends.
  - apply extends_bind; [|intros c; apply IH].
    unfold broadcast_one. extends_steps.
Qed.

Lemma extends_broadcastMessage (message : string) : extends (broadcastMessage message).
Proof.
  unfold broadcastMessage.
  apply extends_try_catch; [|intros e; extends_steps].
  apply extends_bind; [auto with extends|]. intros ready.
  destruct (negb ready); [extends_steps|].
  apply extends_bind; [auto with extends|]. intros subs.
  apply extends_broadcast_loop.
Qed.

(** ** Strings *)

Lemma split_head (sep : ascii) (s : string) :
  exists piece pieces rest,
    split sep s = piece :: pieces /\
    s = piece +++ rest /\
    (rest = "" \/ exists r, rest = String sep r) /\
    (forall i, get i piece <> Some sep).
Proof.
  induction s as [|c r IH]; simpl.
  - exists "", [], "". repeat split; auto. intros i. destruct i; discriminate.
  - destruct (Ascii.eqb c sep) eqn:E.
    + apply Ascii.eqb_eq in E. subst c.
      exists "", (split sep r), (String sep r). repeat split; eauto.
      intros i. destruct i; discriminate.
    + destruct IH as (piece & pieces & rest & -> & Hs & Hrest & Hfree).
      exists (String c piece), pieces, rest. repeat split; auto.
      * simpl. now rewrite <- Hs.
      * intros [|i]; simpl; auto.
        intros H. injection H as ->. now rewrite Ascii.eqb_refl in E.
Qed.

Lemma split_nonempty (sep : ascii) (s : string) : split sep s <> [].
Proof.
  destruct (split_head sep s) as (piece & pieces & rest & -> & _). discriminate.
Qed.

(** C8: the derived phone number of an inbound message is the part of the
    sender address before the first separator ['@'] (the whole address when
    it has none): the address is the phone number followed by nothing or by
    the separator and a rest, and the phone number holds no separator.
    "5551234567@c.us" gives "5551234567".  The message listener stores the
    subscriber under this phone number. *)
Theorem phoneNumber_is_prefix_before_separator (sender : string) :
  (exists rest,
      sender = phoneNumber sender +++ rest /\
      (rest = "" \/ exists r, rest = String "@"%char r)) /\
  (forall i, get i (phoneNumber sender) <> Some "@"%char) /\
  phoneNumber "5551234567@c.us" = "5551234567" /\
  (forall env w text d,
      exists err evs,
        trace (world_after (on (Message {| from := sender; body := text; dump := d |}))
                 env w) =
          trace w ++
          ConsoleLog ("📩 Mensaje recibido de " +++ sender +++ ": " +++ text) None ::
          DbRun (InsertOrIgnoreSubscriber sender (phoneNumber sender) text) err ::
          evs).
Proof.
  unfold phoneNumber at 1 2.
  destruct (split_head "@"%char sender) as (piece & pieces & rest & -> & Hs & Hrest & Hfree).
  split; [exists rest; auto|]. split; [exact Hfree|]. split; [reflexivity|].
  intros env w text d.
  unfold world_after, on, on_message, handleCommands.
  cbn [from body dump].
  step_all; eexists _, _; trace_norm; reflexivity.
Qed.

(** ** Letter case *)

Lemma lower_cases (c : ascii) : c = lower c \/ c = upper (lower c).
Proof.
  destruct c as [[] [] [] [] [] [] [] []]; vm_compute; auto.
Qed.

Lemma lower_upper (c : ascii) : lower (upper c) = lower c.
Proof.
  destruct c as [[] [] [] [] [] [] [] []]; reflexivity.
Qed.

Lemma casings_sound (t s : string) :
  In s (casings t) -> toLowerCase s = toLowerCase t.
Proof.
  revert s. induction t as [|c r IH]; intros s; simpl.
  - intros [<-|[]]. reflexivity.
  - rewrite in_flat_map. intros (t' & Ht' & Hs).
    apply IH in Ht'.
    destruct (Ascii.eqb (upper c) c); simpl in Hs;
      repeat match goal with H : _ \/ _ |- _ => destruct H as [<-|H] end;
      try contradiction; simpl; rewrite ?lower_upper, Ht'; reflexivity.
Qed.

Lemma casings_complete (s : string) : In s (casings (toLowerCase s)).
Proof.
  induction s as [|c r IH]; simpl; auto.
  rewrite in_flat_map. exists r. split; auto.
  destruct (Ascii.eqb (upper (lower c)) (lower c)) eqn:E.
  - apply Ascii.eqb_eq in E.
    destruct (lower_cases c) as [H|H]; [|rewrite E in H]; rewrite <- H; simpl; auto.
  - destruct (lower_cases c) as [H|H]; rewrite <- H; simpl; auto.
Qed.

Lemma same_letters_iff (s t : string) :
  toLowerCase s = toLowerCase t <-> In s (casings (toLowerCase t)).
Proof.
  split.
  - intros <-. apply casings_complete.
  - intros H. apply casings_sound in H. rewrite H.
    clear. induction t as [|c r IH]; simpl; auto.
    rewrite IH. f_equal.
    destruct c as [[] [] [] [] [] [] [] []]; reflexivity.
Qed.

(** The dispatch in terms of the three reply texts of the service. *)
Lemma handleCommands_replies (env : Env) (w : World) (msg : Msg) :
  let command := toLowerCase (body msg) in
  outcome (handleCommands msg) env w = Resolved tt /\
  replies (events (handleCommands msg) env w) =
    (if command =? "hola" then [greeting]
     else if command =? "!info" then [info_reply msg]
     else if (command =? "!ayuda") || (command =? "!help") then [help_text]
     else []) /\
  (replies (events (handleCommands msg) env w) = [greeting] <->
   In (body msg) (casings "hola")).
Proof.
  intros command.
  assert (Hrun : outcome (handleCommands msg) env w = Resolved tt /\
                 replies (events (handleCommands msg) env w) =
                   (if command =? "hola" then [greeting]
                    else if command =? "!info" then [info_reply msg]
                    else if (command =? "!ayuda") || (command =? "!help") then [help_text]
                    else [])).
  { unfold outcome, events, world_after, handleCommands. fold command.
    step_all; cbn [fst snd]; (split; [reflexivity|]);
      first [ rewrite emitted_refl; reflexivity
            | erewrite emitted_app by (trace_norm; reflexivity); reflexivity ]. }
  destruct Hrun as [Hout Hrep].
  split; [exact Hout|]. split; [exact Hrep|].
  rewrite Hrep.
  change "hola" with (toLowerCase "hola") at 2.
  rewrite <- same_letters_iff. fold command. simpl toLowerCase.
  destruct (command =? "hola") eqn:E1.
  - apply String.eqb_eq in E1. tauto.
  - apply String.eqb_neq in E1.
    split; [|tauto]. intros H. exfalso.
    destruct (command =? "!info"); [|destruct ((command =? "!ayuda") || (command =? "!help"))];
      discriminate.
Qed.

(** C7: command dispatch lowers the text of the message and compares it, as
    a whole, with "hola", "!info", "!ayuda" and "!help".  It never fails and
    answers once: "hola" with the greeting "¡Hola! Soy un bot de WhatsApp 🤖";
    "!info" with the line "Aquí está tu info:" followed by the dump of the
    message; "!ayuda" and "!help" with the list of the three commands hola,
    !info and !ayuda, one per line.  The texts that get the greeting are
    exactly the sixteen ways of writing "hola" in upper and lower case,
    "HOLA" among them.  A text outside the table, such as "bye", gets no
    reply and leaves everything as it was. *)
Theorem handleCommands_dispatch (env : Env) (w : World) (msg : Msg) :
  let command := toLowerCase (body msg) in
  let newline := String "010"%char EmptyString in
  outcome (handleCommands msg) env w = Resolved tt /\
  trace (world_after (handleCommands msg) env w) =
    trace w ++ events (handleCommands msg) env w /\
  replies (events (handleCommands msg) env w) =
    (if command =? "hola" then ["¡Hola! Soy un bot de WhatsApp 🤖"]
     else if command =? "!info" then
       ["Aquí está tu info:" +++ newline +++ dump msg]
     else if (command =? "!ayuda") || (command =? "!help") then
       ["Comandos disponibles:" +++ newline +++
        "- hola: Saludo" +++ newline +++
        "- !info: Ver información del mensaje" +++ newline +++
        "- !ayuda: Ver esta ayuda"]
     else []) /\
  (replies (events (handleCommands msg) env w) = ["¡Hola! Soy un bot de WhatsApp 🤖"] <->
   In (body msg) (casings "hola")) /\
  In "HOLA" (casings "hola") /\
  List.length (casings "hola") = 16%nat /\
  (body msg = "bye" -> handleCommands msg env w = (w, Resolved tt)) /\
  (command <> "hola" -> command <> "!info" ->
   command <> "!ayuda" -> command <> "!help" ->
   handleCommands msg env w = (w, Resolved tt)).
Proof.
  intros command newline.
  destruct (handleCommands_replies env w msg) as (Hout & Hrep & Hgreeting).
  fold command in Hrep.
  split; [exact Hout|].
  split; [apply events_extends, extends_handleCommands|].
  split; [exact Hrep|].
  split; [exact Hgreeting|].
  split; [|split; [|split]].
  - vm_compute. tauto.
  - reflexivity.
  - intros Hbye. unfold handleCommands. rewrite Hbye. reflexivity.
  - intros H1 H2 H3 H4.
    apply String.eqb_neq in H1, H2, H3, H4.
    unfold handleCommands, try_catch. fold command.
    rewrite H1, H2, H3, H4. reflexivity.
Qed.

(** ** Sending *)

(** C3: [sendMessage] always settles with a boolean, it never rejects.
    Before the client is ready the boolean is [false], the client is not
    called and the only effect is the line on [console.error].  When the
    client is ready there is exactly one call of [client.sendMessage] with
    the same target and content, the boolean tells whether that call
    succeeded, and a failure of the call is written to [console.error].
    Neither the tables nor the ready flag change. *)
Theorem sendMessage_reports (env : Env) (w : World) (to message : string) :
  (exists b, outcome (sendMessage to message) env w = Resolved b) /\
  (isReady w = false ->
   sendMessage to message env w =
     (push (ConsoleError "❌ WhatsApp client not ready" None) w, Resolved false)) /\
  (isReady w = true ->
   let err := client_sendMessage_err env (List.length (trace w)) to message in
   outcome (sendMessage to message) env w = Resolved (is_none err) /\
   events (sendMessage to message) env w =
     [ ClientSendMessage to message err;
       match err with
       | None => ConsoleLog ("✅ Message sent to " +++ to) None
       | Some e => ConsoleError ("❌ Error sending message to " +++ to +++ ":") (Some e)
       end ]) /\
  trace (world_after (sendMessage to message) env w) =
    trace w ++ events (sendMessage to message) env w /\
  isReady (world_after (sendMessage to message) env w) = isReady w /\
  tables (world_after (sendMessage to message) env w) = tables w.
Proof.
  split; [|split; [|split; [|split; [apply events_extends, extends_sendMessage|]]]];
    unfold outcome, events, world_after, sendMessage;
    [| | |split].
  - step_all; cbn [snd]; eauto.
  - intros H. step_all; try discriminate; reflexivity.
  - intros H. cbv zeta. split.
    + step_all; try discriminate; reflexivity.
    + step_all; try discriminate;
        cbn [fst]; apply emitted_app; trace_norm; reflexivity.
  - step_all; trace_norm; congruence.
  - step_all; reflexivity.
Qed.

(** ** Broadcasting *)

Lemma delivered_undelivered (calls : list (string * string * option Error)) :
  delivered calls + undelivered calls = List.length calls.
Proof.
  unfold delivered, undelivered.
  induction calls as [|call calls IH]; simpl; auto.
  destruct (is_none (snd call)); simpl; lia.
Qed.

Lemma addressed_length (calls : list (string * string * option Error)) :
  List.length (addressed calls) = List.length calls.
Proof. apply length_map. Qed.

(** The loop of [broadcastMessage] from any counters: one call of
    [client.sendMessage] per subscriber, in order, one counter moved per
    call, and the loop itself never rejects. *)
Lemma broadcast_loop_spec (message : string) (subs : list Subscriber) :
  forall (env : Env) (w : World) (c : nat * nat),
  exists evs,
    trace (fst (broadcast_loop message subs c env w)) = trace w ++ evs /\
    isReady (fst (broadcast_loop message subs c env w)) = isReady w /\
    tables (fst (broadcast_loop message subs c env w)) = tables w /\
    addressed (sends evs) = map (fun s => (whatsapp_id s, message)) subs /\
    reads evs = 0 /\
    initializations evs = 0 /\
    snd (broadcast_loop message subs c env w) =
      Resolved {| success := fst c + delivered (sends evs);
                  failed := snd c + undelivered (sends evs) |}.
Proof.
  induction subs as [|s subs IH]; intros env w [ok ko].
  - exists []. simpl. rewrite app_nil_r. unfold delivered, undelivered. simpl.
    rewrite !Nat.add_0_r. auto 10.
  - cbn [broadcast_loop]. unfold broadcast_one.
    step_all;
      match goal with
      | |- context [broadcast_loop ?m ?l ?c ?e ?w'] =>
          destruct (IH e w' c) as (evs & Ht & Hr & Htab & Ha & Hrd & Hi & Hs)
      end;
      rewrite Ht, Hr, Htab, Hs; trace_norm;
      eexists (_ :: _ :: evs); (split; [reflexivity|]);
      cbn [sends reads initializations addressed map fst snd];
      unfold addressed in Ha; rewrite Ha, Hrd, Hi;
      unfold delivered, undelivered; cbn [filter snd is_none negb List.length];
      repeat split; try reflexivity; do 2 f_equal; lia.
Qed.

Lemma broadcastMessage_ready_eq (env : Env) (w : World) (message : string) :
  isReady w = true ->
  sqlite_err env (List.length (trace w)) = None ->
  broadcastMessage message env w =
    broadcast_loop message (subscribers (tables w)) (0, 0) env (push (DbAll None) w).
Proof.
  intros Hready Hread.
  unfold broadcastMessage, try_catch, get_isReady.
  unfold bind at 1. rewrite Hready. cbn [negb].
  unfold Database.getAllSubscribers, Database.db_all.
  unfold bind at 1. unfold bind at 1. rewrite Hread. unfold ret at 1.
  cbv beta iota.
  destruct (broadcast_loop_spec message (subscribers (tables w)) env
              (push (DbAll None) w) (0, 0))
    as (evs & _ & _ & _ & _ & _ & _ & Hs).
  destruct (broadcast_loop message (subscribers (tables w)) (0, 0) env
              (push (DbAll None) w)) as [w' r].
  cbn [snd] in Hs. subst r. reflexivity.
Qed.

Lemma broadcastMessage_ready_run (env : Env) (w : World) (message : string) :
  isReady w = true ->
  sqlite_err env (List.length (trace w)) = None ->
  exists evs,
    events (broadcastMessage message) env w = DbAll None :: evs /\
    reads evs = 0 /\
    initializations evs = 0 /\
    addressed (sends evs) = map (fun s => (whatsapp_id s, message)) (subscribers (tables w)) /\
    outcome (broadcastMessage message) env w =
      Resolved {| success := delivered (sends evs); failed := undelivered (sends evs) |} /\
    isReady (world_after (broadcastMessage message) env w) = isReady w /\
    tables (world_after (broadcastMessage message) env w) = tables w.
Proof.
  intros Hready Hread.
  unfold events, outcome, world_after.
  rewrite (broadcastMessage_ready_eq env w message Hready Hread).
  destruct (broadcast_loop_spec message (subscribers (tables w)) env
              (push (DbAll None) w) (0, 0))
    as (evs & Ht & Hr & Htab & Ha & Hrd & Hi & Hs).
  exists evs. repeat split; auto.
  apply emitted_app. rewrite Ht. trace_norm. reflexivity.
Qed.

(** C1: a broadcast with the client ready and the subscriber list read
    without error reads the list once, before anything else, then calls
    [client.sendMessage] once per subscriber, in the order of the list, with
    the identity of the subscriber and the text of the broadcast.  It
    resolves with the number of calls that succeeded and the number that
    failed, which add up to the number of subscribers.  With two
    subscribers, the first reachable and the second not, both calls are
    made and the tally is [{success: 1, failed: 1}]; with no subscriber the
    tally is [{success: 0, failed: 0}]. *)
Theorem broadcastMessage_ready (env : Env) (w : World) (message : string) :
  isReady w = true ->
  sqlite_err env (List.length (trace w)) = None ->
  let evs := events (broadcastMessage message) env w in
  let subs := subscribers (tables w) in
  trace (world_after (broadcastMessage message) env w) = trace w ++ evs /\
  (exists rest, evs = DbAll None :: rest /\ reads rest = 0) /\
  reads evs = 1 /\
  addressed (sends evs) = map (fun s => (whatsapp_id s, message)) subs /\
  outcome (broadcastMessage message) env w =
    Resolved {| success := delivered (sends evs); failed := undelivered (sends evs) |} /\
  delivered (sends evs) + undelivered (sends evs) = List.length subs /\
  (subs = [] ->
   outcome (broadcastMessage message) env w = Resolved {| success := 0; failed := 0 |}) /\
  (forall s1 s2 e,
      subs = [s1; s2] ->
      (forall i, client_sendMessage_err env i (whatsapp_id s1) message = None) ->
      (forall i, client_sendMessage_err env i (whatsapp_id s2) message = Some e) ->
      sends evs = [ (whatsapp_id s1, message, None); (whatsapp_id s2, message, Some e) ] /\
      outcome (broadcastMessage message) env w = Resolved {| success := 1; failed := 1 |}).
Proof.
  intros Hready Hread evs subs.
  destruct (broadcastMessage_ready_run env w message Hready Hread)
    as (rest & Hev & Hrd & _ & Ha & Hout & _ & _).
  fold evs subs in Hev, Ha, Hout.
  assert (Hsends : sends evs = sends rest) by (rewrite Hev; reflexivity).
  rewrite <- Hsends in Ha, Hout.
  assert (Hlen : List.length (sends evs) = List.length subs).
  { rewrite <- addressed_length, Ha. apply length_map. }
  split; [apply events_extends, extends_broadcastMessage|].
  split; [exists rest; auto|].
  split; [rewrite Hev; simpl; now rewrite Hrd|].
  split; [exact Ha|]. split; [exact Hout|].
  split; [now rewrite delivered_undelivered|].
  split.
  - intros Hnil. rewrite Hout. rewrite Hnil in Hlen.
    destruct (sends evs); [reflexivity|discriminate].
  - intros s1 s2 e Hsubs H1 H2.
    assert (Hcalls : sends evs =
              [ (whatsapp_id s1, message, None); (whatsapp_id s2, message, Some e) ]).
    { rewrite Hsubs in Ha. unfold addressed in Ha.
      clear - Ha Hready Hread Hsubs H1 H2.
      subst evs subs. revert Ha.
      unfold events, world_after.
      rewrite (broadcastMessage_ready_eq env w message Hready Hread).
      rewrite Hsubs. cbn [broadcast_loop]. unfold broadcast_one.
      step_all; rewrite ?H1, ?H2 in *; try discriminate;
        cbn [fst]; (erewrite emitted_app by (trace_norm; reflexivity));
        intros _; cbn [sends]; congruence. }
    split; [exact Hcalls|]. rewrite Hout, Hcalls. reflexivity.
Qed.

Lemma broadcastMessage_ready_witness :
  outcome (broadcastMessage "hi") s2_unreachable two_subscribers =
    Resolved {| success := 1; failed := 1 |}.
Proof.
  apply (broadcastMessage_ready s2_unreachable two_subscribers "hi"
           eq_refl eq_refl) with (s1 := S1) (s2 := S2) (e := "chat not found");
    reflexivity.
Defined.

Lemma broadcastMessage_not_ready_eq (env : Env) (w : World) (message : string) :
  isReady w = false ->
  broadcastMessage message env w =
    (push (ConsoleError "❌ WhatsApp client not ready" None) w,
     Resolved {| success := 0; failed := 0 |}).
Proof.
  intros Hready. unfold broadcastMessage.
  step_all; try congruence; reflexivity.
Qed.

Lemma broadcastMessage_no_subscribers (env : Env) (w : World) (message : string) :
  isReady w = true ->
  sqlite_err env (List.length (trace w)) = None ->
  subscribers (tables w) = [] ->
  outcome (broadcastMessage message) env w = Resolved {| success := 0; failed := 0 |}.
Proof.
  intros Hready Hread Hnil. unfold outcome.
  rewrite (broadcastMessage_ready_eq env w message Hready Hread), Hnil.
  reflexivity.
Qed.

(** C2: a broadcast before the client is ready resolves at once with
    [{success: 0, failed: 0}]: it is an outcome, not a rejection, the only
    effect is one line on [console.error], the subscriber list is not read
    and nothing is sent.  A broadcast by a ready client to an empty
    subscriber list resolves with the same value. *)
Theorem broadcastMessage_not_ready (env : Env) (w : World) (message : string) :
  isReady w = false ->
  broadcastMessage message env w =
    (push (ConsoleError "❌ WhatsApp client not ready" None) w,
     Resolved {| success := 0; failed := 0 |}) /\
  reads (events (broadcastMessage message) env w) = 0 /\
  sends (events (broadcastMessage message) env w) = [] /\
  (forall env' w' message',
      isReady w' = true ->
      sqlite_err env' (List.length (trace w')) = None ->
      subscribers (tables w') = [] ->
      outcome (broadcastMessage message') env' w' =
      outcome (broadcastMessage message) env w).
Proof.
  intros Hready.
  pose proof (broadcastMessage_not_ready_eq env w message Hready) as Heq.
  assert (Hev : events (broadcastMessage message) env w =
                [ConsoleError "❌ WhatsApp client not ready" None]).
  { unfold events, world_after. rewrite Heq. apply emitted_app. reflexivity. }
  split; [exact Heq|]. rewrite Hev.
  split; [reflexivity|]. split; [reflexivity|].
  intros env' w' message' Hready' Hread' Hnil.
  rewrite (broadcastMessage_no_subscribers env' w' message' Hready' Hread' Hnil).
  unfold outcome. now rewrite Heq.
Qed.

Lemma broadcastMessage_not_ready_witness :
  outcome (broadcastMessage "hi") calm not_ready_yet =
    Resolved {| success := 0; failed := 0 |} /\
  reads (events (broadcastMessage "hi") calm not_ready_yet) = 0.
Proof.
  pose proof (broadcastMessage_not_ready calm not_ready_yet "hi" eq_refl)
    as (Heq & Hreads & _).
  split; [|exact Hreads].
  unfold outcome. rewrite Heq. reflexivity.
Defined.

(** C10: when the client is ready and reading the subscriber list fails,
    the failure is written to [console.error] by the store and by the
    catch-all of the broadcast, nothing is sent, and the broadcast resolves
    with [{success: 0, failed: 0}], the value it also resolves with when
    the client is not ready and when the list is empty.  The loop over the
    subscribers never rejects, so the read is the only failure that reaches
    the catch-all. *)
Theorem broadcastMessage_read_failure (env : Env) (w : World) (message : string)
    (e : Error) :
  isReady w = true ->
  sqlite_err env (List.length (trace w)) = Some e ->
  outcome (broadcastMessage message) env w = Resolved {| success := 0; failed := 0 |} /\
  world_after (broadcastMessage message) env w =
    pushes [ DbAll (Some e);
             ConsoleError "❌ Error getting subscribers:" (Some e);
             ConsoleError "❌ Error broadcasting message:" (Some e) ] w /\
  sends (events (broadcastMessage message) env w) = [] /\
  (forall env1 w1 message1,
      isReady w1 = false ->
      outcome (broadcastMessage message1) env1 w1 =
      outcome (broadcastMessage message) env w) /\
  (forall env2 w2 message2,
      isReady w2 = true ->
      sqlite_err env2 (List.length (trace w2)) = None ->
      subscribers (tables w2) = [] ->
      outcome (broadcastMessage message2) env2 w2 =
      outcome (broadcastMessage message) env w) /\
  (forall subs counters env' w',
      exists tally,
        outcome (broadcast_loop message subs counters) env' w' = Resolved tally).
Proof.
  intros Hready Hread.
  assert (Heq : broadcastMessage message env w =
                (push (ConsoleError "❌ Error broadcasting message:" (Some e))
                   (push (ConsoleError "❌ Error getting subscribers:" (Some e))
                      (push (DbAll (Some e)) w)),
                 Resolved {| success := 0; failed := 0 |})).
  { unfold broadcastMessage. step_all; congruence. }
  assert (Hout : outcome (broadcastMessage message) env w =
                 Resolved {| success := 0; failed := 0 |}).
  { unfold outcome. now rewrite Heq. }
  assert (Hev : events (broadcastMessage message) env w =
                [ DbAll (Some e);
                  ConsoleError "❌ Error getting subscribers:" (Some e);
                  ConsoleError "❌ Error broadcasting message:" (Some e) ]).
  { unfold events, world_after. rewrite Heq. apply emitted_app.
    trace_norm. reflexivity. }
  split; [exact Hout|].
  split; [unfold world_after; rewrite Heq; apply world_ext; trace_norm; reflexivity|].
  split; [rewrite Hev; reflexivity|].
  rewrite Hout. split; [|split].
  - intros env1 w1 message1 H1. unfold outcome.
    now rewrite (broadcastMessage_not_ready_eq env1 w1 message1 H1).
  - intros env2 w2 message2. apply broadcastMessage_no_subscribers.
  - intros subs counters env' w'.
    destruct (broadcast_loop_spec message subs env' w' counters)
      as (evs & _ & _ & _ & _ & _ & _ & Hs).
    unfold outcome. eauto.
Qed.

Lemma broadcastMessage_read_failure_witness :
  outcome (broadcastMessage "hi") engine_down two_subscribers =
    Resolved {| success := 0; failed := 0 |}.
Proof.
  pose proof (broadcastMessage_read_failure engine_down two_subscribers "hi"
                "SQLITE_IOERR: disk I/O error" eq_refl eq_refl) as (Hout & _).
  exact Hout.
Defined.

(** ** Reconnecting *)

Lemma broadcastMessage_no_initialize (env : Env) (w : World) (message : string) :
  initializations (events (broadcastMessage message) env w) = 0.
Proof.
  destruct (isReady w) eqn:Hready.
  - destruct (sqlite_err env (List.length (trace w))) as [e|] eqn:Hread.
    + unfold events, world_after, broadcastMessage.
      step_all; try congruence;
        cbn [fst]; (erewrite emitted_app by (trace_norm; reflexivity)); reflexivity.
    + destruct (broadcastMessage_ready_run env w message Hready Hread)
        as (evs & -> & _ & Hi & _). simpl. exact Hi.
  - unfold events, world_after.
    rewrite (broadcastMessage_not_ready_eq env w message Hready).
    erewrite emitted_app by (trace_norm; reflexivity). reflexivity.
Qed.

(** What one listener adds to the trace, and how many calls of
    [client.initialize()] are in it. *)
Lemma on_initializations (ev : ClientEvent) (env : Env) (w : World) :
  initializations (events (on ev) env w) = if is_disconnected ev then 1 else 0.
Proof.
  unfold events, world_after.
  destruct ev as [qr| |r|msg|error];
    unfold on, on_qr, on_ready, on_disconnected, on_message, on_auth_failure,
      handleCommands;
    step_all; cbn [fst];
    (erewrite emitted_app by (trace_norm; reflexivity)); reflexivity.
Qed.

Lemma dispatch_initializations (history : list ClientEvent) (env : Env) :
  forall w : World,
  exists evs,
    trace (dispatch history env w) = trace w ++ evs /\
    initializations evs = disconnections history.
Proof.
  induction history as [|ev history IH]; intros w; cbn [dispatch].
  - exists []. now rewrite app_nil_r.
  - destruct (IH (world_after (on ev) env w)) as (evs & Ht & Hn).
    exists (events (on ev) env w ++ evs). split.
    + rewrite Ht, (events_extends (on ev) env w (extends_on ev)).
      now rewrite app_assoc.
    + rewrite initializations_app, Hn, on_initializations.
      unfold disconnections. cbn [filter].
      destruct (is_disconnected ev); reflexivity.
Qed.

(** C9: the listener of the disconnected event puts the ready flag to
    false and calls [client.initialize()] once, in the listener itself, right
    after the line on the console: no delay, no counter of attempts, and the
    same holds in every state, whatever happened before.  When that call
    fails the failure is written to [console.error] and no second call
    follows.  No other listener, and neither [sendMessage], [broadcastMessage]
    nor [handleCommands], calls [client.initialize()], so over any history of
    client events the number of calls is the number of disconnected events
    in it.  The only other call is the one in [initialize], which creates
    the client at start-up. *)
Theorem disconnected_reconnects_once (env : Env) (w : World) (reason : string) :
  let err := client_initialize_err env (S (List.length (trace w))) in
  outcome (on (Disconnected reason)) env w = Resolved tt /\
  world_after (on (Disconnected reason)) env w =
    pushes
      (ConsoleLog "❌ Bot desconectado:" (Some reason) ::
       ClientInitialize err ::
       match err with
       | None => []
       | Some e => [ConsoleError "❌ Error reconnecting WhatsApp client:" (Some e)]
       end)
      (set_isReady false w) /\
  isReady (world_after (on (Disconnected reason)) env w) = false /\
  initializations (events (on (Disconnected reason)) env w) = 1 /\
  (forall ev,
      (forall r, ev <> Disconnected r) ->
      initializations (events (on ev) env w) = 0) /\
  (forall history,
      initializations (emitted w (dispatch history env w)) = disconnections history) /\
  (forall to message, initializations (events (sendMessage to message) env w) = 0) /\
  (forall message, initializations (events (broadcastMessage message) env w) = 0) /\
  (forall msg, initializations (events (handleCommands msg) env w) = 0) /\
  initializations (events initialize env w) = 1.
Proof.
  intros err.
  assert (Hlen : List.length (trace w ++ [ConsoleLog "❌ Bot desconectado:" (Some reason)]) =
                 S (List.length (trace w))).
  { rewrite length_app. simpl. lia. }
  assert (Hw : world_after (on (Disconnected reason)) env w =
               pushes
                 (ConsoleLog "❌ Bot desconectado:" (Some reason) ::
                  ClientInitialize err ::
                  match err with
                  | None => []
                  | Some e => [ConsoleError "❌ Error reconnecting WhatsApp client:" (Some e)]
                  end)
                 (set_isReady false w)).
  { subst err. unfold world_after, on, on_disconnected.
    step_all; trace_norm; rewrite Hlen in *; try congruence;
      repeat match goal with
             | H1 : ?x = Some ?a, H2 : ?x = Some ?b |- _ =>
                 assert (b = a) by congruence; subst b; clear H2
             end;
      apply world_ext; trace_norm; reflexivity. }
  split; [|split; [exact Hw|split; [|split; [|split; [|split; [|split; [|split; [|split]]]]]]]].
  - unfold outcome, on, on_disconnected. step_all; reflexivity.
  - rewrite Hw. reflexivity.
  - apply (on_initializations (Disconnected reason)).
  - intros ev Hev'. rewrite on_initializations.
    destruct ev as [qr| |r|msg|error]; try reflexivity. now elim (Hev' r).
  - intros history.
    destruct (dispatch_initializations history env w) as (evs & Ht & Hn).
    now rewrite (emitted_app _ _ _ Ht).
  - intros to message. unfold events, world_after, sendMessage.
    step_all; cbn [fst];
      (erewrite emitted_app by (trace_norm; reflexivity)); reflexivity.
  - intros message. apply broadcastMessage_no_initialize.
  - intros msg. unfold events, world_after, handleCommands.
    step_all; cbn [fst];
      first [ rewrite emitted_refl
            | erewrite emitted_app by (trace_norm; reflexivity) ]; reflexivity.
  - unfold events, world_after, initialize.
    step_all; cbn [fst];
      (erewrite emitted_app by (trace_norm; reflexivity)); reflexivity.
Qed.

(** ** The store *)

Lemma addSubscriber_healthy (env : Env) (w : World)
    (whatsappId phoneNumber firstMessage : string) :
  engine_healthy env ->
  Database.addSubscriber whatsappId phoneNumber firstMessage env w =
    (push (ConsoleLog ("✅ Subscriber added or already exists: " +++ whatsappId) None)
       (push (DbRun (InsertOrIgnoreSubscriber whatsappId phoneNumber firstMessage) None)
          (set_tables
             (Database.exec (InsertOrIgnoreSubscriber whatsappId phoneNumber firstMessage)
                (current_timestamp env (List.length (trace w))) (tables w))
             w)),
     Resolved true).
Proof.
  intros Hh. unfold Database.addSubscriber.
  step_all; [|reflexivity].
  rewrite Hh in *. discriminate.
Qed.

Lemma absent_no_rows (whatsappId : string) (rows : list Subscriber) :
  existsb (Database.has_id whatsappId) rows = false ->
  filter (Database.has_id whatsappId) rows = [].
Proof.
  induction rows as [|row rows IH]; simpl; auto.
  destruct (Database.has_id whatsappId row); simpl; auto. discriminate.
Qed.

Lemma not_in_absent (whatsappId : string) (rows : list Subscriber) :
  ~ In whatsappId (map whatsapp_id rows) ->
  existsb (Database.has_id whatsappId) rows = false.
Proof.
  induction rows as [|row rows IH]; simpl; auto.
  intros H. unfold Database.has_id at 1.
  destruct (whatsapp_id row =? whatsappId) eqn:E.
  - apply String.eqb_eq in E. tauto.
  - simpl. apply IH. tauto.
Qed.

Lemma absent_not_in (whatsappId : string) (rows : list Subscriber) :
  existsb (Database.has_id whatsappId) rows = false ->
  ~ In whatsappId (map whatsapp_id rows).
Proof.
  induction rows as [|row rows IH]; simpl; auto.
  unfold Database.has_id at 1.
  destruct (whatsapp_id row =? whatsappId) eqn:E; simpl; [discriminate|].
  apply String.eqb_neq in E. intros H [H'|H']; [congruence|]. now apply IH.
Qed.

Lemma present_one_row (whatsappId : string) (rows : list Subscriber) :
  NoDup (map whatsapp_id rows) ->
  existsb (Database.has_id whatsappId) rows = true ->
  exists row, filter (Database.has_id whatsappId) rows = [row].
Proof.
  induction rows as [|row rows IH]; simpl; [discriminate|].
  intros Hnd. inversion Hnd as [|x l Hnotin Hnd']; subst.
  destruct (Database.has_id whatsappId row) eqn:E; simpl.
  - intros _. exists row. f_equal.
    apply absent_no_rows, not_in_absent.
    unfold Database.has_id in E. apply String.eqb_eq in E. now subst.
  - intros H. now apply IH.
Qed.

(** The engine keeps the UNIQUE constraint, whatever the statement. *)
Lemma exec_unique (sql : Statement) (now : Z) (t : Tables) :
  unique_identities t -> unique_identities (Database.exec sql now t).
Proof.
  unfold unique_identities. intros Hu.
  destruct sql as [i p m|i m]; simpl; auto.
  destruct (existsb (Database.has_id i) (subscribers t)) eqn:E; simpl; auto.
  rewrite map_app. simpl.
  apply absent_not_in in E.
  apply NoDup_app; auto.
  - repeat constructor. intros [].
  - intros x Hx [<-|[]]. contradiction.
Qed.

(** The rows of an identity after [INSERT OR IGNORE] for it. *)
Lemma exec_insert_rows (i p m : string) (now : Z) (t : Tables) :
  rows_of i (Database.exec (InsertOrIgnoreSubscriber i p m) now t) =
    if existsb (Database.has_id i) (subscribers t) then rows_of i t
    else [ {| id := seq_subscribers t + 1; whatsapp_id := i; phone_number := p;
              first_message := m; subscribed_at := now |} ].
Proof.
  unfold rows_of. simpl.
  destruct (existsb (Database.has_id i) (subscribers t)) eqn:E; simpl; auto.
  rewrite filter_app, (absent_no_rows _ _ E). simpl.
  unfold Database.has_id. simpl. now rewrite String.eqb_refl.
Qed.

Lemma exec_insert_present (i p m : string) (now : Z) (t : Tables) :
  existsb (Database.has_id i)
    (subscribers (Database.exec (InsertOrIgnoreSubscriber i p m) now t)) = true.
Proof.
  simpl. destruct (existsb (Database.has_id i) (subscribers t)) eqn:E; simpl; auto.
  rewrite existsb_app. simpl. unfold Database.has_id at 2. simpl.
  rewrite String.eqb_refl. apply orb_true_iff. auto.
Qed.

(** The UNIQUE constraint holds at start-up and every listener keeps it, so
    it holds in every state the bot reaches. *)
Lemma on_unique (ev : ClientEvent) (env : Env) (w : World) :
  unique_identities (tables w) ->
  unique_identities (tables (world_after (on ev) env w)).
Proof.
  intros Hu. unfold world_after.
  destruct ev as [qr| |r|msg|error];
    unfold on, on_qr, on_ready, on_disconnected, on_message, on_auth_failure,
      handleCommands;
    step_all; trace_norm; repeat apply exec_unique; exact Hu.
Qed.

Lemma dispatch_unique (history : list ClientEvent) (env : Env) :
  forall w : World,
  unique_identities (tables w) ->
  unique_identities (tables (dispatch history env w)).
Proof.
  induction history as [|ev history IH]; intros w Hu; cbn [dispatch]; auto.
  apply IH. now apply on_unique.
Qed.

Lemma reachable_unique (history : list ClientEvent) (env : Env) :
  unique_identities (tables (dispatch history env initial_world)).
Proof. apply dispatch_unique. constructor. Qed.

(** C4: with an engine that accepts the statements and a subscribers table
    that respects its UNIQUE constraint, the two calls of [addSubscriber]
    for one identity both resolve with [true]; afterwards the table holds
    exactly one row of that identity; the second call changes no row of
    either table, it only moves the AUTOINCREMENT counter on by one.
    When the identity was new, that row carries the phone number and the
    first message of the first call; when it was already known, its row is
    the one it had.  The constraint still holds afterwards. *)
Theorem addSubscriber_twice (env : Env) (w : World)
    (whatsappId p1 m1 p2 m2 : string) :
  engine_healthy env ->
  unique_identities (tables w) ->
  let w1 := world_after (Database.addSubscriber whatsappId p1 m1) env w in
  let w2 := world_after (Database.addSubscriber whatsappId p2 m2) env w1 in
  outcome (Database.addSubscriber whatsappId p1 m1) env w = Resolved true /\
  outcome (Database.addSubscriber whatsappId p2 m2) env w1 = Resolved true /\
  (exists row, rows_of whatsappId (tables w2) = [row]) /\
  subscribers (tables w2) = subscribers (tables w1) /\
  messages (tables w2) = messages (tables w1) /\
  seq_subscribers (tables w2) = (seq_subscribers (tables w1) + 1)%Z /\
  (rows_of whatsappId (tables w) = [] ->
   exists row,
     rows_of whatsappId (tables w2) = [row] /\
     first_message row = m1 /\ phone_number row = p1) /\
  (forall row,
      rows_of whatsappId (tables w) = [row] ->
      rows_of whatsappId (tables w2) = [row]) /\
  unique_identities (tables w2).
Proof.
  intros Hh Hu w1 w2.
  assert (Ht1 : tables w1 =
                Database.exec (InsertOrIgnoreSubscriber whatsappId p1 m1)
                  (current_timestamp env (List.length (trace w))) (tables w)).
  { subst w1. unfold world_after. now rewrite addSubscriber_healthy. }
  assert (Ht2 : tables w2 =
                {| subscribers := subscribers (tables w1);
                   messages := messages (tables w1);
                   seq_subscribers := seq_subscribers (tables w1) + 1;
                   seq_messages := seq_messages (tables w1) |}).
  { subst w2. unfold world_after. rewrite addSubscriber_healthy by assumption.
    cbn [fst push set_tables tables].
    pose proof (exec_insert_present whatsappId p1 m1
                  (current_timestamp env (List.length (trace w))) (tables w)) as Hp.
    rewrite <- Ht1 in Hp. cbn [Database.exec]. now rewrite Hp. }
  assert (Hsame : rows_of whatsappId (tables w2) = rows_of whatsappId (tables w1)).
  { rewrite Ht2. reflexivity. }
  assert (Huniq : unique_identities (tables w2)).
  { unfold unique_identities. rewrite Ht2. cbn [subscribers].
    rewrite Ht1. now apply exec_unique. }
  assert (Hrows : rows_of whatsappId (tables w2) =
                  if existsb (Database.has_id whatsappId) (subscribers (tables w))
                  then rows_of whatsappId (tables w)
                  else [ {| id := seq_subscribers (tables w) + 1;
                            whatsapp_id := whatsappId; phone_number := p1;
                            first_message := m1;
                            subscribed_at :=
                              current_timestamp env (List.length (trace w)) |} ]).
  { rewrite Hsame, Ht1. apply exec_insert_rows. }
  split; [unfold outcome; now rewrite addSubscriber_healthy|].
  split; [unfold outcome; now rewrite addSubscriber_healthy|].
  split; [|split; [now rewrite Ht2|split; [now rewrite Ht2|split;
                     [now rewrite Ht2|split; [|split]]]]].
  - rewrite Hrows.
    destruct (existsb (Database.has_id whatsappId) (subscribers (tables w))) eqn:E; eauto.
    now apply present_one_row.
  - intros Hnone. rewrite Hrows.
    destruct (existsb (Database.has_id whatsappId) (subscribers (tables w))) eqn:E; eauto.
    destruct (present_one_row _ _ Hu E) as (row & Hrow).
    unfold rows_of in Hnone. congruence.
  - intros row Hrow. rewrite Hrows.
    destruct (existsb (Database.has_id whatsappId) (subscribers (tables w))) eqn:E; auto.
    unfold rows_of in Hrow. rewrite (absent_no_rows _ _ E) in Hrow. discriminate.
  - exact Huniq.
Qed.

Lemma addSubscriber_twice_witness :
  exists row,
    rows_of "5551234567@c.us"
      (tables
         (world_after (Database.addSubscriber "5551234567@c.us" "5551234567" "bye") calm
            (world_after (Database.addSubscriber "5551234567@c.us" "5551234567" "hola")
               calm initial_world))) = [row] /\
    first_message row = "hola" /\ phone_number row = "5551234567".
Proof.
  pose proof (addSubscriber_twice calm initial_world
                "5551234567@c.us" "5551234567" "hola" "5551234567" "bye"
                (fun i => eq_refl) (NoDup_nil string))
    as (_ & _ & _ & _ & _ & _ & Hnew & _).
  apply Hnew. reflexivity.
Defined.

(** One call of [logMessage], by what the engine answers. *)
Lemma logMessage_run (env : Env) (w : World) (whatsappId message : string) :
  Database.logMessage whatsappId message env w =
    match sqlite_err env (List.length (trace w)) with
    | Some e =>
        (push (ConsoleError "❌ Error logging message:" (Some e))
           (push (DbRun (InsertMessage whatsappId message) (Some e)) w),
         Rejected e)
    | None =>
        (push (ConsoleLog ("✅ Message logged for: " +++ whatsappId) None)
           (push (DbRun (InsertMessage whatsappId message) None)
              (set_tables
                 (Database.exec (InsertMessage whatsappId message)
                    (current_timestamp env (List.length (trace w))) (tables w))
                 w)),
         Resolved true)
    end.
Proof.
  unfold Database.logMessage. step_all; congruence.
Qed.

Lemma readings_resolved (env : Env) (outcomes : list (Outcome bool)) :
  Forall (fun r => r = Resolved true) outcomes ->
  forall start,
  readings env start outcomes =
    map (fun k => current_timestamp env (start + 2 * k)) (seq 0 (List.length outcomes)).
Proof.
  induction 1 as [|r outcomes Hr Hrest IH]; intros start; [reflexivity|].
  subst r. cbn [readings List.length seq map].
  rewrite IH, <- seq_shift, map_map. f_equal.
  - f_equal. lia.
  - apply map_ext. intros k. f_equal. lia.
Qed.

(** N calls of [logMessage], whatever the engine answers to each. *)
Lemma logMessages_spec (env : Env) (whatsappId : string) (texts : list string) :
  forall w : World,
  exists rows,
    messages (tables (fst (logMessages whatsappId texts env w))) =
      messages (tables w) ++ rows /\
    subscribers (tables (fst (logMessages whatsappId texts env w))) =
      subscribers (tables w) /\
    Forall (fun row => msg_whatsapp_id row = whatsappId) rows /\
    List.length (snd (logMessages whatsappId texts env w)) = List.length texts /\
    List.length rows =
      List.length (filter resolved (snd (logMessages whatsappId texts env w))) /\
    map received_at rows =
      readings env (List.length (trace w)) (snd (logMessages whatsappId texts env w)) /\
    (engine_healthy env ->
     map msg_message rows = texts /\
     Forall (fun r => r = Resolved true) (snd (logMessages whatsappId texts env w))) /\
    (clock_monotone env ->
     StronglySorted Z.le (map received_at rows) /\
     Forall (fun row =>
               (current_timestamp env (List.length (trace w)) <= received_at row)%Z)
       rows).
Proof.
  induction texts as [|text texts IH]; intros w.
  - exists []. simpl. rewrite app_nil_r.
    repeat split; auto; constructor.
  - cbn [logMessages]. rewrite logMessage_run.
    destruct (sqlite_err env (List.length (trace w))) as [e|] eqn:Herr.
    + set (w1 := push _ (push _ w)).
      assert (Hlen1 : List.length (trace w1) = List.length (trace w) + 2).
      { subst w1. trace_norm. now rewrite length_app. }
      destruct (IH w1)
        as (rows & Hrows & Hsubs & Hids & Hlen & Hcount & Hstamps & Hhealthy & Hclock).
      destruct (logMessages whatsappId texts env w1) as [w2 rs].
      cbn [fst snd] in *.
      exists rows. split; [exact Hrows|]. split; [exact Hsubs|]. split; [exact Hids|].
      split; [simpl; now rewrite Hlen|]. split; [exact Hcount|].
      split; [cbn [readings]; now rewrite <- Hlen1|]. split.
      * intros Hh. rewrite Hh in Herr. discriminate.
      * intros Hm. destruct (Hclock Hm) as [Hsorted Hlow]. split; [exact Hsorted|].
        eapply Forall_impl; [|exact Hlow]. cbv beta. intros row Hrow.
        assert ((current_timestamp env (List.length (trace w)) <=
                 current_timestamp env (List.length (trace w1)))%Z).
        { apply Hm. lia. }
        lia.
    + set (w1 := push _ (push _ (set_tables _ w))).
      assert (Hlen1 : List.length (trace w1) = List.length (trace w) + 2).
      { subst w1. trace_norm. now rewrite length_app. }
      destruct (IH w1)
        as (rows & Hrows & Hsubs & Hids & Hlen & Hcount & Hstamps & Hhealthy & Hclock).
      destruct (logMessages whatsappId texts env w1) as [w2 rs].
      cbn [fst snd] in *.
      exists ({| msg_id := seq_messages (tables w) + 1;
                 msg_whatsapp_id := whatsappId;
                 msg_message := text;
                 received_at := current_timestamp env (List.length (trace w)) |} :: rows).
      split; [|split; [|split; [|split; [|split; [|split; [|split]]]]]].
      * rewrite Hrows. subst w1. trace_norm. cbn [Database.exec messages].
        now rewrite <- app_assoc.
      * rewrite Hsubs. subst w1. reflexivity.
      * constructor; auto.
      * simpl. now rewrite Hlen.
      * simpl. now rewrite Hcount.
      * cbn [map received_at readings]. now rewrite Hstamps, Hlen1.
      * intros Hh. destruct (Hhealthy Hh) as [Htexts Houts]. split.
        -- simpl. now rewrite Htexts.
        -- constructor; auto.
      * intros Hm. destruct (Hclock Hm) as [Hsorted Hlow].
        assert (Hstep : (current_timestamp env (List.length (trace w)) <=
                         current_timestamp env (List.length (trace w1)))%Z).
        { apply Hm. lia. }
        split.
        -- simpl. constructor; auto.
           rewrite Forall_map. eapply Forall_impl; [|exact Hlow].
           cbv beta. intros row Hrow. lia.
        -- constructor; [simpl; lia|].
           eapply Forall_impl; [|exact Hlow]. cbv beta. intros row Hrow. lia.
Qed.

(** C5 as stated fails here: two calls of [logMessage] within one second of
    the clock, which does not run backwards, both resolve and leave two
    rows in the order of the calls, and the two rows carry the same
    timestamp.  The timestamps do not tell the first from the second: the
    rows in the opposite order are sorted by timestamp just as well. *)
Lemma logMessage_same_second :
  clock_monotone same_second /\
  snd (logMessages "S1@c.us" ["first"; "second"] same_second two_subscribers) =
    [Resolved true; Resolved true] /\
  map logged
    (messages (tables (fst (logMessages "S1@c.us" ["first"; "second"] same_second
                              two_subscribers)))) =
    [("S1@c.us", "first"); ("S1@c.us", "second")] /\
  map received_at
    (messages (tables (fst (logMessages "S1@c.us" ["first"; "second"] same_second
                              two_subscribers)))) =
    [1700000000%Z; 1700000000%Z] /\
  StronglySorted Z.le
    (map received_at
       (rev (messages (tables (fst (logMessages "S1@c.us" ["first"; "second"]
                                     same_second two_subscribers)))))).
Proof.
  split; [intros i j H; simpl; lia|].
  split; [reflexivity|]. split; [reflexivity|]. split; [reflexivity|].
  simpl. repeat constructor; lia.
Qed.

(** C5, amended: [logMessage] only ever appends.  After N calls for one
    identity the messages table is the table as it was, row for row,
    followed by the rows of the calls that resolved, in the order of the
    calls, each under that identity; the subscribers table is not touched,
    and no subscriber row is needed for the identity.  The timestamp of a
    row is the reading of the clock at its call.  With an engine that
    accepts the statements every call resolves with [true] and the new
    rows are N, with the texts of the calls in order and the readings of
    the clock at the N calls as timestamps.  With a clock that does not run
    backwards the timestamps never decrease along that order; calls that
    read the same second share a timestamp, so the timestamps alone do not
    order them. *)
Theorem logMessage_append_only (env : Env) (w : World) (whatsappId : string)
    (texts : list string) :
  let w' := fst (logMessages whatsappId texts env w) in
  let outcomes := snd (logMessages whatsappId texts env w) in
  exists rows,
    messages (tables w') = messages (tables w) ++ rows /\
    subscribers (tables w') = subscribers (tables w) /\
    Forall (fun row => msg_whatsapp_id row = whatsappId) rows /\
    List.length outcomes = List.length texts /\
    List.length rows = List.length (filter resolved outcomes) /\
    map received_at rows = readings env (List.length (trace w)) outcomes /\
    (engine_healthy env ->
     List.length rows = List.length texts /\
     map msg_message rows = texts /\
     Forall (fun r => r = Resolved true) outcomes /\
     map received_at rows =
       map (fun k => current_timestamp env (List.length (trace w) + 2 * k))
         (seq 0 (List.length texts))) /\
    (clock_monotone env -> StronglySorted Z.le (map received_at rows)).
Proof.
  intros w' outcomes.
  destruct (logMessages_spec env whatsappId texts w)
    as (rows & Hrows & Hsubs & Hids & Hlen & Hcount & Hstamps & Hhealthy & Hclock).
  fold outcomes in Hlen, Hcount, Hstamps, Hhealthy.
  exists rows.
  split; [exact Hrows|]. split; [exact Hsubs|]. split; [exact Hids|].
  split; [exact Hlen|]. split; [exact Hcount|]. split; [exact Hstamps|]. split.
  - intros Hh. destruct (Hhealthy Hh) as [Htexts Houts].
    split; [rewrite <- Htexts; now rewrite length_map|].
    split; [exact Htexts|]. split; [exact Houts|].
    rewrite Hstamps, (readings_resolved env outcomes Houts), Hlen. reflexivity.
  - intros Hm. now apply Hclock.
Qed.

(** Three calls under [calm], whose engine accepts every statement and
    whose clock does not run backwards. *)
Lemma logMessage_append_only_witness :
  engine_healthy calm /\
  clock_monotone calm /\
  exists rows,
    messages (tables (fst (logMessages "S1@c.us" ["hola"; "!info"; "hola"] calm
                             two_subscribers))) = rows /\
    map msg_message rows = ["hola"; "!info"; "hola"] /\
    map received_at rows = [0%Z; 2%Z; 4%Z] /\
    StronglySorted Z.le (map received_at rows).
Proof.
  assert (Hh : engine_healthy calm) by (intros i; reflexivity).
  assert (Hm : clock_monotone calm) by (intros i j H; simpl; lia).
  split; [exact Hh|]. split; [exact Hm|].
  destruct (logMessage_append_only calm two_subscribers "S1@c.us"
              ["hola"; "!info"; "hola"])
    as (rows & Hrows & _ & _ & _ & _ & _ & Hhealthy & Hclock).
  exists rows. split; [exact Hrows|].
  destruct (Hhealthy Hh) as (_ & Htexts & _ & Hstamps).
  split; [exact Htexts|]. split; [exact Hstamps|].
  now apply Hclock.
Defined.

(** ** The HTTP surface *)

Import ApiServer.

Lemma sendMessage_resolves (env : Env) (w : World) (to message : string) :
  exists b, outcome (sendMessage to message) env w = Resolved b.
Proof.
  unfold outcome, sendMessage. step_all; cbn [snd]; eauto.
Qed.

Lemma truthy_some (s : string) : s <> "" -> truthy (Some s) = true.
Proof.
  intros H. unfold truthy. apply String.eqb_neq in H. now rewrite H.
Qed.

(** The route on a parsed body is the route after the destructuring. *)
Lemma post_api_send_parsed (env : Env) (w : World) (body : Body) :
  post_api_send (Some body) env w =
    (if negb (truthy (to body)) || negb (truthy (message body)) then
       (w, Resolved {| status := 400;
                       json := JObj [("success", JBool false);
                                     ("error", JStr both_required)] |})
     else
       match sendMessage (the (to body)) (the (message body)) env w with
       | (w', Resolved true) =>
           (w', Resolved {| status := 200;
                            json := JObj [("success", JBool true);
                                          ("message", JStr "Message sent successfully")] |})
       | (w', Resolved false) =>
           (w', Resolved {| status := 500;
                            json := JObj [("success", JBool false);
                                          ("error", JStr "Failed to send message")] |})
       | (w', Rejected e) =>
           (push (ConsoleError "❌ Error in send message endpoint:" (Some e)) w',
            Resolved {| status := 500;
                        json := JObj [("success", JBool false);
                                      ("error", JStr "Failed to send message")] |})
       end).
Proof.
  unfold post_api_send, destructure, try_catch, bind at 1.
  cbv beta iota zeta delta [ret].
  destruct (negb (truthy (to body)) || negb (truthy (message body))); [reflexivity|].
  unfold bind.
  destruct (sendMessage (the (to body)) (the (message body)) env w) as [w' [[|]|e]];
    reflexivity.
Qed.

(** C6 as stated fails here: the request [{to: "123", message: ""}] carries
    both properties, yet the route answers 400 and the client is never
    called.  An empty string fails the test [!message] as a missing property
    does. *)
Lemma post_api_send_empty_message :
  let body := {| to := Some "123"; message := Some "" |} in
  to body <> None /\
  message body <> None /\
  outcome (post_api_send (Some body)) calm two_subscribers =
    Resolved {| status := 400;
                json := JObj [("success", JBool false);
                              ("error", JStr both_required)] |} /\
  sends (events (post_api_send (Some body)) calm two_subscribers) = [].
Proof.
  cbv zeta. repeat split; discriminate.
Qed.

(** C6, amended: POST /api/send always answers, and with an envelope that
    has a [success] flag.  When the request has a body object and [to] or
    [message] is missing from it or is the empty string, the answer is 400
    with [success: false] and nothing else happens.  When both are strings
    that are not empty, the route does exactly what
    [sendMessage(to, message)] does, and answers 200 with [success: true]
    when that resolves with [true], 500 with [success: false] when it
    resolves with [false].  When the request has no body object at all
    ([req.body] is [undefined]), reading the two properties throws, the
    catch of the route writes the TypeError to [console.error], and the
    answer is 500 with [success: false], without a call of [sendMessage]. *)
Theorem post_api_send_responses (env : Env) (w : World) (req_body : option Body) :
  exists res,
    outcome (post_api_send req_body) env w = Resolved res /\
    (req_body = None ->
     status res = 500 /\
     field "success" (json res) = Some (JBool false) /\
     world_after (post_api_send req_body) env w =
       push (ConsoleError "❌ Error in send message endpoint:"
               (Some "Cannot destructure property 'to' of 'req.body' as it is undefined."))
         w) /\
    (forall body,
        req_body = Some body ->
        (to body = None \/ message body = None \/
         to body = Some "" \/ message body = Some "" ->
         status res = 400 /\
         field "success" (json res) = Some (JBool false) /\
         world_after (post_api_send req_body) env w = w) /\
        (forall t m,
            to body = Some t -> message body = Some m -> t <> "" -> m <> "" ->
            world_after (post_api_send req_body) env w =
              world_after (sendMessage t m) env w /\
            exists sent,
              outcome (sendMessage t m) env w = Resolved sent /\
              status res = (if sent then 200 else 500) /\
              field "success" (json res) = Some (JBool sent))).
Proof.
  destruct req_body as [body|].
  - assert (Hnone : Some body = None -> False) by discriminate.
    destruct (truthy (to body) && truthy (message body)) eqn:Htruthy.
    + apply andb_true_iff in Htruthy. destruct Htruthy as [Hto Hmsg].
      destruct (to body) as [t|] eqn:Et; [|discriminate].
      destruct (message body) as [m|] eqn:Em; [|discriminate].
      destruct (sendMessage_resolves env w t m) as (sent & Hsent).
      unfold outcome in Hsent.
      destruct (sendMessage t m env w) as [w' r] eqn:Hsend.
      cbn [snd] in Hsent. subst r.
      assert (Hrun : post_api_send (Some body) env w =
                     (w', Resolved
                            (if sent
                             then {| status := 200;
                                     json := JObj [("success", JBool true);
                                                   ("message",
                                                    JStr "Message sent successfully")] |}
                             else {| status := 500;
                                     json := JObj [("success", JBool false);
                                                   ("error",
                                                    JStr "Failed to send message")] |}))).
      { rewrite post_api_send_parsed, Et, Em, Hto, Hmsg. cbn [negb orb the].
        rewrite Hsend. destruct sent; reflexivity. }
      unfold outcome, world_after. rewrite Hrun. cbn [fst snd].
      eexists; split; [reflexivity|]. split; [intros H; now elim Hnone|].
      intros body' Hbody. injection Hbody as <-. rewrite Et, Em. split.
      * unfold truthy in Hto, Hmsg.
        intros [H|[H|[H|H]]]; try discriminate; injection H as ->; discriminate.
      * intros t' m' Ht' Hm' _ _.
        injection Ht' as <-. injection Hm' as <-. rewrite Hsend. cbn [fst snd].
        split; [reflexivity|]. exists sent. destruct sent; repeat split; reflexivity.
    + assert (Hrun : post_api_send (Some body) env w =
                     (w, Resolved {| status := 400;
                                     json := JObj [("success", JBool false);
                                                   ("error", JStr both_required)] |})).
      { rewrite post_api_send_parsed.
        apply andb_false_iff in Htruthy.
        destruct Htruthy as [H|H]; rewrite H; cbn [negb orb]; [reflexivity|].
        destruct (negb (truthy (to body))); reflexivity. }
      unfold outcome, world_after. rewrite Hrun. cbn [fst snd].
      eexists; split; [reflexivity|]. split; [intros H; now elim Hnone|].
      intros body' Hbody. injection Hbody as <-. split.
      * intros _. repeat split; reflexivity.
      * intros t m Ht Hm Hnt Hnm. rewrite Ht, Hm in Htruthy.
        rewrite (truthy_some t Hnt), (truthy_some m Hnm) in Htruthy. discriminate.
  - eexists. split; [reflexivity|]. split.
    + intros _. repeat split; reflexivity.
    + intros body Hbody. discriminate.
Qed.

(** * Further properties *)

(** ** What every computation keeps *)

Section Keeps.

Variable R : World -> World -> Prop.
Hypothesis R_refl : forall w, R w w.
Hypothesis R_trans : forall a b c, R a b -> R b c -> R a c.
Hypothesis R_push : forall e w, R w (push e w).

Lemma keeps_ret {A} (a : A) : keeps R (ret a).
Proof. intros env w. apply R_refl. Qed.

Lemma keeps_throw {A} (e : Error) : keeps R (@throw A e).
Proof. intros env w. apply R_refl. Qed.

Lemma keeps_emit (e : Event) : keeps R (emit e).
Proof. intros env w. apply R_push. Qed.

Lemma keeps_bind {A B} (m : M A) (k : A -> M B) :
  keeps R m -> (forall a, keeps R (k a)) -> keeps R (bind m k).
Proof.
  intros Hm Hk env w. pose proof (Hm env w) as H1.
  unfold world_after, bind in *.
  destruct (m env w) as [w1 [a|e]]; cbn [fst] in *; auto.
  eapply R_trans; [exact H1|]. apply (Hk a env w1).
Qed.

Lemma keeps_try_catch {A} (body : M A) (handler : Error -> M A) :
  keeps R body -> (forall e, keeps R (handler e)) -> keeps R (try_catch body handler).
Proof.
  intros Hb Hh env w. pose proof (Hb env w) as H1.
  unfold world_after, try_catch in *.
  destruct (body env w) as [w1 [a|e]]; cbn [fst] in *; auto.
  eapply R_trans; [exact H1|]. apply (Hh e env w1).
Qed.

Lemma keeps_get_isReady : keeps R get_isReady.
Proof. intros env w. apply R_refl. Qed.

Lemma keeps_client_initialize : keeps R client_initialize.
Proof. intros env w. apply R_push. Qed.

Lemma keeps_client_sendMessage (to content : string) :
  keeps R (client_sendMessage to content).
Proof. intros env w. apply R_push. Qed.

Lemma keeps_msg_reply (msg : Msg) (content : string) : keeps R (msg_reply msg content).
Proof. intros env w. apply R_push. Qed.

Lemma keeps_qrcode_generate (qr : string) : keeps R (qrcode_generate qr).
Proof. intros env w. apply R_push. Qed.

Lemma keeps_db_all : keeps R Database.db_all.
Proof.
  intros env w. unfold world_after, Database.db_all.
  destruct (sqlite_err env (List.length (trace w))); apply R_push.
Qed.

(** Splits a computation along its binds, handlers and branches. *)
Ltac keeps_steps :=
  repeat first
    [ apply keeps_bind; [|intros ?]
    | apply keeps_try_catch; [|intros ?]
    | match goal with
      | |- keeps _ (if ?b then _ else _) => destruct b
      | |- keeps _ (match ?x with _ => _ end) => destruct x
      end
    | progress unfold console_log, console_error
    | apply keeps_ret | apply keeps_throw | apply keeps_emit
    | apply keeps_get_isReady | apply keeps_client_initialize
    | apply keeps_client_sendMessage | apply keeps_msg_reply
    | apply keeps_qrcode_generate | apply keeps_db_all
    | assumption ].

Lemma keeps_getAllSubscribers : keeps R Database.getAllSubscribers.
Proof. unfold Database.getAllSubscribers. keeps_steps. Qed.

Lemma keeps_handleCommands (msg : Msg) : keeps R (handleCommands msg).
Proof. unfold handleCommands. cbv zeta. keeps_steps. Qed.

Lemma keeps_sendMessage (to message : string) : keeps R (sendMessage to message).
Proof. unfold sendMessage. keeps_steps. Qed.

Lemma keeps_broadcast_loop (message : string) (subs : list Subscriber) :
  forall counters, keeps R (broadcast_loop message subs counters).
Proof.
  induction subs as [|s subs IH]; intros counters; cbn [broadcast_loop].
  - apply keeps_ret.
  - apply keeps_bind; [|intros c; apply IH].
    unfold broadcast_one. destruct counters. keeps_steps.
Qed.

Lemma keeps_broadcastMessage (message : string) : keeps R (broadcastMessage message).
Proof.
  unfold broadcastMessage.
  apply keeps_try_catch; [|intros e; keeps_steps].
  apply keeps_bind; [apply keeps_get_isReady|]. intros ready.
  destruct (negb ready); [keeps_steps|].
  apply keeps_bind; [apply keeps_getAllSubscribers|]. intros subs.
  apply keeps_broadcast_loop.
Qed.

Lemma keeps_initialize : keeps R initialize.
Proof. unfold initialize. keeps_steps. Qed.

Lemma keeps_on_qr (qr : string) : keeps R (on_qr qr).
Proof. unfold on_qr. keeps_steps. Qed.

Lemma keeps_on_auth_failure (error : Error) : keeps R (on_auth_failure error).
Proof. unfold on_auth_failure. keeps_steps. Qed.

Lemma keeps_destructure (property : string) (req_body : option ApiServer.Body) :
  keeps R (ApiServer.destructure property req_body).
Proof. unfold ApiServer.destructure. keeps_steps. Qed.

Lemma keeps_post_api_send (req_body : option ApiServer.Body) :
  keeps R (ApiServer.post_api_send req_body).
Proof.
  unfold ApiServer.post_api_send.
  apply keeps_try_catch; [|intros e; keeps_steps].
  apply keeps_bind; [apply keeps_destructure|]. intros body. cbv zeta.
  destruct (_ || _); [keeps_steps|].
  apply keeps_bind; [apply keeps_sendMessage|]. intros sent. keeps_steps.
Qed.

Lemma keeps_post_api_broadcast (req_body : option ApiServer.Body) :
  keeps R (ApiServer.post_api_broadcast req_body).
Proof.
  unfold ApiServer.post_api_broadcast.
  apply keeps_try_catch; [|intros e; keeps_steps].
  apply keeps_bind; [apply keeps_destructure|]. intros body. cbv zeta.
  destruct (negb _); [keeps_steps|].
  apply keeps_bind; [apply keeps_broadcastMessage|]. intros tally. keeps_steps.
Qed.

Section KeepsReady.

Hypothesis R_ready : forall b w, R w (set_isReady b w).

Lemma keeps_put_isReady (b : bool) : keeps R (put_isReady b).
Proof. intros env w. apply R_ready. Qed.

Lemma keeps_on_ready : keeps R on_ready.
Proof.
  unfold on_ready.
  apply keeps_try_catch; [|intros e; keeps_steps].
  apply keeps_bind; [apply keeps_put_isReady|]. intros _. keeps_steps.
Qed.

Lemma keeps_on_disconnected (reason : string) : keeps R (on_disconnected reason).
Proof.
  unfold on_disconnected.
  apply keeps_try_catch; [|intros e; keeps_steps].
  apply keeps_bind; [apply keeps_put_isReady|]. intros _. keeps_steps.
Qed.

End KeepsReady.

Section KeepsExec.

Hypothesis R_exec :
  forall sql now w, R w (set_tables (Database.exec sql now (tables w)) w).

Lemma keeps_db_run (sql : Statement) : keeps R (Database.db_run sql).
Proof.
  intros env w. unfold world_after, Database.db_run.
  destruct (sqlite_err env (List.length (trace w))); cbn [fst].
  - apply R_push.
  - eapply R_trans; [apply R_exec|apply R_push].
Qed.

Lemma keeps_addSubscriber (i p m : string) : keeps R (Database.addSubscriber i p m).
Proof.
  unfold Database.addSubscriber.
  apply keeps_bind; [apply keeps_db_run|]. intros err. keeps_steps.
Qed.

Lemma keeps_logMessage (i m : string) : keeps R (Database.logMessage i m).
Proof.
  unfold Database.logMessage.
  apply keeps_bind; [apply keeps_db_run|]. intros err. keeps_steps.
Qed.

Lemma keeps_on_message (msg : Msg) : keeps R (on_message msg).
Proof.
  unfold on_message.
  apply keeps_try_catch; [|intros e; keeps_steps].
  apply keeps_bind; [keeps_steps|]. intros _.
  apply keeps_bind; [apply keeps_addSubscriber|]. intros _.
  apply keeps_bind; [apply keeps_logMessage|]. intros _.
  apply keeps_handleCommands.
Qed.

End KeepsExec.

End Keeps.

Lemma same_store_refl (w : World) : same_store w w.
Proof. reflexivity. Qed.

Lemma same_store_trans (a b c : World) : same_store a b -> same_store b c -> same_store a c.
Proof. unfold same_store. congruence. Qed.

Lemma same_store_push (e : Event) (w : World) : same_store w (push e w).
Proof. reflexivity. Qed.

Lemma same_store_ready (b : bool) (w : World) : same_store w (set_isReady b w).
Proof. reflexivity. Qed.

Lemma same_ready_refl (w : World) : same_ready w w.
Proof. reflexivity. Qed.

Lemma same_ready_trans (a b c : World) : same_ready a b -> same_ready b c -> same_ready a c.
Proof. unfold same_ready. congruence. Qed.

Lemma same_ready_push (e : Event) (w : World) : same_ready w (push e w).
Proof. reflexivity. Qed.

Lemma same_ready_exec (sql : Statement) (now : Z) (w : World) :
  same_ready w (set_tables (Database.exec sql now (tables w)) w).
Proof. reflexivity. Qed.

Lemma grows_refl (w : World) : grows w w.
Proof. exists [], []. now rewrite !app_nil_r. Qed.

Lemma grows_trans (a b c : World) : grows a b -> grows b c -> grows a c.
Proof.
  intros (s1 & m1 & Hs1 & Hm1) (s2 & m2 & Hs2 & Hm2).
  exists (s1 ++ s2), (m1 ++ m2). rewrite Hs2, Hs1, Hm2, Hm1.
  now rewrite !app_assoc.
Qed.

Lemma grows_push (e : Event) (w : World) : grows w (push e w).
Proof. exact (grows_refl w). Qed.

Lemma grows_ready (b : bool) (w : World) : grows w (set_isReady b w).
Proof. exact (grows_refl w). Qed.

Lemma grows_exec (sql : Statement) (now : Z) (w : World) :
  grows w (set_tables (Database.exec sql now (tables w)) w).
Proof.
  unfold grows. destruct sql as [i p m|i m]; cbn [set_tables tables Database.exec].
  - destruct (existsb (Database.has_id i) (subscribers (tables w))).
    + exists [], []. now rewrite !app_nil_r.
    + eexists [_], []. cbn [subscribers messages]. now rewrite app_nil_r.
  - eexists [], [_]. cbn [subscribers messages]. now rewrite app_nil_r.
Qed.

(** Uses a lemma of the section above at one of the three relations. *)
Ltac by_keeps lem :=
  first
    [ eapply (lem grows);
      first [exact grows_refl | exact grows_trans | exact grows_push
            | exact grows_ready | exact grows_exec]
    | eapply (lem same_store);
      first [exact same_store_refl | exact same_store_trans | exact same_store_push
            | exact same_store_ready]
    | eapply (lem same_ready);
      first [exact same_ready_refl | exact same_ready_trans | exact same_ready_push
            | exact same_ready_exec] ].

(** Every listener keeps the rows that are there. *)
Lemma on_grows (ev : ClientEvent) (env : Env) (w : World) :
  grows w (world_after (on ev) env w).
Proof.
  destruct ev as [qr| |r|msg|error]; cbn [on].
  - by_keeps keeps_on_qr.
  - by_keeps keeps_on_ready.
  - by_keeps keeps_on_disconnected.
  - by_keeps keeps_on_message.
  - by_keeps keeps_on_auth_failure.
Qed.

Lemma on_same_store (ev : ClientEvent) (env : Env) (w : World) :
  is_message ev = false -> same_store w (world_after (on ev) env w).
Proof.
  destruct ev as [qr| |r|msg|error]; cbn [on is_message]; intros H; try discriminate.
  - by_keeps keeps_on_qr.
  - by_keeps keeps_on_ready.
  - by_keeps keeps_on_disconnected.
  - by_keeps keeps_on_auth_failure.
Qed.

Lemma dispatch_grows (history : list ClientEvent) (env : Env) :
  forall w : World, grows w (dispatch history env w).
Proof.
  induction history as [|ev history IH]; intros w; cbn [dispatch].
  - apply grows_refl.
  - eapply grows_trans; [apply on_grows|apply IH].
Qed.

(** X1: the bot never updates or deletes a row.  Over any history of
    client events, whatever the engine and the client answer, both tables
    are what they were with rows added at the end.  Only the message
    listener writes: the other listeners, [initialize], [sendMessage],
    [broadcastMessage] and the two POST routes leave both tables exactly as
    they were. *)
Theorem store_only_grows (env : Env) (w : World) :
  (forall history, grows w (dispatch history env w)) /\
  (forall ev, is_message ev = false -> same_store w (world_after (on ev) env w)) /\
  same_store w (world_after initialize env w) /\
  (forall to message, same_store w (world_after (sendMessage to message) env w)) /\
  (forall message, same_store w (world_after (broadcastMessage message) env w)) /\
  (forall req_body, same_store w (world_after (post_api_send req_body) env w)) /\
  (forall req_body, same_store w (world_after (post_api_broadcast req_body) env w)).
Proof.
  split; [intros history; apply dispatch_grows|].
  split; [intros ev; apply on_same_store|].
  split; [by_keeps keeps_initialize|].
  split; [intros to message; by_keeps keeps_sendMessage|].
  split; [intros message; by_keeps keeps_broadcastMessage|].
  split; intros body.
  - by_keeps keeps_post_api_send.
  - by_keeps keeps_post_api_broadcast.
Qed.

(** ** The ready flag *)

Lemma dispatch_app (h1 h2 : list ClientEvent) (env : Env) :
  forall w : World, dispatch (h1 ++ h2) env w = dispatch h2 env (dispatch h1 env w).
Proof.
  induction h1 as [|ev h1 IH]; intros w; cbn [app dispatch]; auto.
Qed.

Lemma ready_after_app (h1 h2 : list ClientEvent) :
  forall ready, ready_after (h1 ++ h2) ready = ready_after h2 (ready_after h1 ready).
Proof.
  induction h1 as [|ev h1 IH]; intros ready; cbn [app ready_after]; auto.
  destruct ev; apply IH.
Qed.

Lemma ready_after_no_ready (later : list ClientEvent) :
  ~ In Ready later -> ready_after later false = false.
Proof.
  induction later as [|ev later IH]; cbn [ready_after]; auto.
  intros H. destruct ev; try (apply IH; intros H'; apply H; now right).
  elim H. now left.
Qed.

Lemma on_ready_flag (ev : ClientEvent) (env : Env) (w : World) :
  isReady (world_after (on ev) env w) = ready_after [ev] (isReady w).
Proof.
  destruct ev as [qr| |r|msg|error]; cbn [on ready_after].
  - by_keeps keeps_on_qr.
  - unfold world_after, on_ready. step_all; reflexivity.
  - unfold world_after, on_disconnected. step_all; reflexivity.
  - by_keeps keeps_on_message.
  - by_keeps keeps_on_auth_failure.
Qed.

Lemma dispatch_ready_flag (history : list ClientEvent) (env : Env) :
  forall w : World, isReady (dispatch history env w) = ready_after history (isReady w).
Proof.
  induction history as [|ev history IH]; intros w; cbn [dispatch]; auto.
  rewrite IH, on_ready_flag. destruct ev; reflexivity.
Qed.

Lemma sendMessage_not_ready_eq (env : Env) (w : World) (to message : string) :
  isReady w = false ->
  sendMessage to message env w =
    (push (ConsoleError "❌ WhatsApp client not ready" None) w, Resolved false).
Proof.
  intros H. unfold sendMessage. step_all; try discriminate; reflexivity.
Qed.

(** X2: the ready flag is decided by the last ready or disconnected event:
    QR codes, inbound messages and authentication failures never move it,
    whatever fails while they are handled, and neither do [initialize],
    [broadcastMessage] and the two POST routes.  So from a disconnected
    event until the next ready event, also when the reconnect went well,
    [sendMessage] reports [false] without calling the client. *)
Theorem ready_flag_follows_events (env : Env) (w : World) (history : list ClientEvent) :
  isReady (dispatch history env w) = ready_after history (isReady w) /\
  same_ready w (world_after initialize env w) /\
  (forall message, same_ready w (world_after (broadcastMessage message) env w)) /\
  (forall req_body, same_ready w (world_after (post_api_send req_body) env w)) /\
  (forall req_body, same_ready w (world_after (post_api_broadcast req_body) env w)) /\
  (forall reason later,
      ~ In Ready later ->
      let w' := dispatch (history ++ Disconnected reason :: later) env w in
      isReady w' = false /\
      forall env' to message,
        outcome (sendMessage to message) env' w' = Resolved false /\
        sends (events (sendMessage to message) env' w') = []).
Proof.
  split; [apply dispatch_ready_flag|].
  split; [by_keeps keeps_initialize|].
  split; [intros message; by_keeps keeps_broadcastMessage|].
  split; [intros body; by_keeps keeps_post_api_send|].
  split; [intros body; by_keeps keeps_post_api_broadcast|].
  intros reason later Hlater w'.
  assert (Hflag : isReady w' = false).
  { subst w'. rewrite dispatch_ready_flag, ready_after_app. cbn [ready_after].
    now apply ready_after_no_ready. }
  split; [exact Hflag|]. intros env' to message.
  unfold outcome, events, world_after.
  rewrite (sendMessage_not_ready_eq env' w' to message Hflag). cbn [fst snd].
  split; [reflexivity|].
  erewrite emitted_app by (trace_norm; reflexivity). reflexivity.
Qed.

(** ** The listeners swallow every failure *)

(** X3: no listener ever rejects.  Whatever the engine, the client, the
    reply and the QR printer answer, the listener of every client event
    resolves, so a failure while one event is handled never reaches the
    client that fired it; and it only adds to the trace. *)
Theorem listeners_never_reject (ev : ClientEvent) (env : Env) (w : World) :
  outcome (on ev) env w = Resolved tt /\
  trace (world_after (on ev) env w) = trace w ++ events (on ev) env w.
Proof.
  split; [|apply events_extends, extends_on].
  unfold outcome.
  destruct ev as [qr| |r|msg|error];
    unfold on, on_qr, on_ready, on_disconnected, on_message, on_auth_failure,
      handleCommands;
    step_all; reflexivity.
Qed.

(** ** The message listener *)

(** Identifies the errors that answer the same call. *)
Ltac same_answers :=
  rewrite ?length_app in *; cbn [List.length] in *;
  try congruence;
  repeat match goal with
         | H1 : ?x = Some ?a, H2 : ?x = Some ?b |- _ =>
             assert (b = a) by congruence; subst b; clear H2
         end.

(** X4: when the engine refuses the INSERT OR IGNORE of the subscriber, the
    message listener stops there: the failure is written to [console.error]
    by the store and by the listener, the tables stay as they were, the
    message is not logged and no command is answered. *)
Theorem on_message_subscriber_refused (env : Env) (w : World) (msg : Msg) (e : Error) :
  sqlite_err env (List.length (trace w) + 1) = Some e ->
  world_after (on (Message msg)) env w =
    pushes
      [ ConsoleLog ("📩 Mensaje recibido de " +++ from msg +++ ": " +++ body msg) None;
        DbRun (InsertOrIgnoreSubscriber (from msg) (phoneNumber (from msg)) (body msg))
          (Some e);
        ConsoleError "❌ Error adding subscriber:" (Some e);
        ConsoleError "❌ Error processing message:" (Some e) ]
      w /\
  tables (world_after (on (Message msg)) env w) = tables w /\
  replies (events (on (Message msg)) env w) = [].
Proof.
  intros Herr.
  assert (Hw : world_after (on (Message msg)) env w =
               pushes
                 [ ConsoleLog ("📩 Mensaje recibido de " +++ from msg +++ ": " +++ body msg)
                     None;
                   DbRun (InsertOrIgnoreSubscriber (from msg) (phoneNumber (from msg))
                            (body msg)) (Some e);
                   ConsoleError "❌ Error adding subscriber:" (Some e);
                   ConsoleError "❌ Error processing message:" (Some e) ]
                 w).
  { unfold world_after, on, on_message, handleCommands.
    step_all; trace_norm; same_answers; apply world_ext; trace_norm; reflexivity. }
  split; [exact Hw|]. unfold events. rewrite Hw.
  split; [reflexivity|].
  erewrite emitted_app by (trace_norm; reflexivity). reflexivity.
Qed.

Lemma on_message_subscriber_refused_witness :
  tables (world_after (on (Message hola_from_S3)) engine_down two_subscribers) =
    tables two_subscribers /\
  replies (events (on (Message hola_from_S3)) engine_down two_subscribers) = [].
Proof.
  pose proof (on_message_subscriber_refused engine_down two_subscribers hola_from_S3
                "SQLITE_IOERR: disk I/O error" eq_refl) as (_ & Ht & Hr).
  split; [exact Ht|exact Hr].
Defined.

(** X5: when the subscriber is stored and the engine then refuses the
    INSERT of the message, the subscriber row stays, no message row is
    written, and the command in the message, if any, gets no reply. *)
Theorem on_message_log_refused (env : Env) (w : World) (msg : Msg) (e : Error) :
  sqlite_err env (List.length (trace w) + 1) = None ->
  sqlite_err env (List.length (trace w) + 3) = Some e ->
  world_after (on (Message msg)) env w =
    pushes
      [ ConsoleLog ("📩 Mensaje recibido de " +++ from msg +++ ": " +++ body msg) None;
        DbRun (InsertOrIgnoreSubscriber (from msg) (phoneNumber (from msg)) (body msg))
          None;
        ConsoleLog ("✅ Subscriber added or already exists: " +++ from msg) None;
        DbRun (InsertMessage (from msg) (body msg)) (Some e);
        ConsoleError "❌ Error logging message:" (Some e);
        ConsoleError "❌ Error processing message:" (Some e) ]
      (set_tables
         (Database.exec
            (InsertOrIgnoreSubscriber (from msg) (phoneNumber (from msg)) (body msg))
            (current_timestamp env (List.length (trace w) + 1)) (tables w))
         w) /\
  messages (tables (world_after (on (Message msg)) env w)) = messages (tables w) /\
  replies (events (on (Message msg)) env w) = [].
Proof.
  intros Hadd Hlog.
  assert (Hw : world_after (on (Message msg)) env w =
               pushes
                 [ ConsoleLog ("📩 Mensaje recibido de " +++ from msg +++ ": " +++ body msg)
                     None;
                   DbRun (InsertOrIgnoreSubscriber (from msg) (phoneNumber (from msg))
                            (body msg)) None;
                   ConsoleLog ("✅ Subscriber added or already exists: " +++ from msg) None;
                   DbRun (InsertMessage (from msg) (body msg)) (Some e);
                   ConsoleError "❌ Error logging message:" (Some e);
                   ConsoleError "❌ Error processing message:" (Some e) ]
                 (set_tables
                    (Database.exec
                       (InsertOrIgnoreSubscriber (from msg) (phoneNumber (from msg))
                          (body msg))
                       (current_timestamp env (List.length (trace w) + 1)) (tables w))
                    w)).
  { unfold world_after, on, on_message, handleCommands.
    step_all; trace_norm; same_answers; apply world_ext; trace_norm;
      rewrite ?length_app; reflexivity. }
  split; [exact Hw|]. unfold events. rewrite Hw. split.
  - cbn [pushes set_tables tables Database.exec].
    destruct (existsb _ _); reflexivity.
  - erewrite emitted_app by (trace_norm; reflexivity). reflexivity.
Qed.

Lemma on_message_log_refused_witness :
  messages (tables (world_after (on (Message hola_from_S3)) fourth_refused two_subscribers)) =
    [] /\
  replies (events (on (Message hola_from_S3)) fourth_refused two_subscribers) = [].
Proof.
  pose proof (on_message_log_refused fourth_refused two_subscribers hola_from_S3
                "SQLITE_FULL: database or disk is full" eq_refl eq_refl)
    as (_ & Hm & Hr).
  split; [exact Hm|exact Hr].
Defined.

Lemma on_message_healthy (env : Env) (w : World) (msg : Msg) :
  engine_healthy env ->
  tables (world_after (on (Message msg)) env w) =
    Database.exec (InsertMessage (from msg) (body msg))
      (current_timestamp env (List.length (trace w) + 3))
      (Database.exec
         (InsertOrIgnoreSubscriber (from msg) (phoneNumber (from msg)) (body msg))
         (current_timestamp env (List.length (trace w) + 1)) (tables w)) /\
  replies (events (on (Message msg)) env w) = reply_to msg /\
  isReady (world_after (on (Message msg)) env w) = isReady w.
Proof.
  intros Hh.
  unfold events, world_after, reply_to, on, on_message, handleCommands.
  step_all;
    try match goal with
        | H : sqlite_err _ _ = Some _ |- _ => rewrite Hh in H; discriminate
        end;
    cbn [fst]; (split; [|split; [|reflexivity]]);
    try (erewrite emitted_app by (trace_norm; reflexivity); reflexivity);
    trace_norm; rewrite ?length_app; reflexivity.
Qed.



(** ** Rows stay *)

Lemma rows_of_stable (i : string) (row : Subscriber) (old new : list Subscriber) :
  NoDup (map whatsapp_id (old ++ new)) ->
  filter (Database.has_id i) old = [row] ->
  filter (Database.has_id i) (old ++ new) = [row].
Proof.
  intros Hnd Hrow. rewrite filter_app, Hrow.
  assert (Hin : In i (map whatsapp_id old)).
  { assert (H : In row (filter (Database.has_id i) old)) by (rewrite Hrow; now left).
    apply filter_In in H. destruct H as [H1 H2].
    unfold Database.has_id in H2. apply String.eqb_eq in H2. subst i.
    now apply in_map. }
  rewrite map_app in Hnd.
  assert (Hout : ~ In i (map whatsapp_id new)).
  { intros H. revert Hnd Hin H. clear.
    induction (map whatsapp_id old) as [|x l IH]; simpl; [tauto|].
    intros Hnd [->|Hin] H.
    - inversion Hnd; subst. apply H2. apply in_or_app. now right.
    - inversion Hnd; subst. now apply IH. }
  now rewrite (absent_no_rows _ _ (not_in_absent _ _ Hout)).
Qed.

(** X7: once an identity has its subscriber row, nothing the client fires
    changes that row: over any history of events, with any answers of the
    engine, the identity keeps exactly the row it had, with its phone
    number, first message and subscription time. *)
Theorem subscriber_row_is_kept (env : Env) (w : World) (history : list ClientEvent)
    (whatsappId : string) (row : Subscriber) :
  unique_identities (tables w) ->
  rows_of whatsappId (tables w) = [row] ->
  rows_of whatsappId (tables (dispatch history env w)) = [row].
Proof.
  intros Hu Hrow.
  pose proof (dispatch_unique history env w Hu) as Hu'.
  destruct (dispatch_grows history env w) as (s & m & Hs & _).
  unfold rows_of, unique_identities in *. rewrite Hs in *.
  now apply rows_of_stable.
Qed.

Lemma subscriber_row_is_kept_witness :
  rows_of "S1@c.us"
    (tables (dispatch [Message hola_from_S3; Disconnected "NAVIGATION"; Ready]
               calm two_subscribers)) = [S1].
Proof.
  apply (subscriber_row_is_kept calm two_subscribers
           [Message hola_from_S3; Disconnected "NAVIGATION"; Ready] "S1@c.us" S1).
  - unfold unique_identities. simpl.
    repeat constructor; simpl; intuition discriminate.
  - reflexivity.
Defined.

(** ** From the first message to the broadcast *)

Lemma existsb_has_id (i : string) (rows : list Subscriber) :
  existsb (Database.has_id i) rows =
  existsb (fun known => known =? i) (map whatsapp_id rows).
Proof.
  induction rows as [|row rows IH]; simpl; auto. now rewrite IH.
Qed.

Lemma on_known (ev : ClientEvent) (env : Env) (w : World) :
  engine_healthy env ->
  map whatsapp_id (subscribers (tables (world_after (on ev) env w))) =
    known_after [ev] (map whatsapp_id (subscribers (tables w))).
Proof.
  intros Hh.
  destruct (is_message ev) eqn:E.
  - destruct ev as [qr| |r|msg|error]; try discriminate.
    destruct (on_message_healthy env w msg Hh) as (Ht & _).
    cbn [known_after]. rewrite Ht. cbn [Database.exec subscribers].
    rewrite <- existsb_has_id.
    destruct (existsb (Database.has_id (from msg)) (subscribers (tables w)));
      cbn [subscribers]; auto.
    rewrite map_app. reflexivity.
  - rewrite (on_same_store ev env w E). destruct ev; try discriminate; reflexivity.
Qed.

Lemma dispatch_known (history : list ClientEvent) (env : Env) :
  engine_healthy env ->
  forall w : World,
  map whatsapp_id (subscribers (tables (dispatch history env w))) =
    known_after history (map whatsapp_id (subscribers (tables w))).
Proof.
  intros Hh. induction history as [|ev history IH]; intros w; cbn [dispatch]; auto.
  rewrite IH, (on_known ev env w Hh). destruct ev; reflexivity.
Qed.

(** X8: with an engine that accepts the statements, the subscribers after
    any history of client events are the ones there were, followed by the
    senders of the messages of the history, each once, in the order of
    their first message.  A broadcast by the ready client then calls
    [client.sendMessage] for exactly these identities, in that order, with
    the text of the broadcast. *)
Theorem broadcast_reaches_every_sender (env : Env) (w : World)
    (history : list ClientEvent) (text : string) :
  engine_healthy env ->
  isReady (dispatch history env w) = true ->
  let known := known_after history (map whatsapp_id (subscribers (tables w))) in
  map whatsapp_id (subscribers (tables (dispatch history env w))) = known /\
  addressed (sends (events (broadcastMessage text) env (dispatch history env w))) =
    map (fun i => (i, text)) known.
Proof.
  intros Hh Hready known.
  pose proof (dispatch_known history env Hh w) as Hknown. fold known in Hknown.
  split; [exact Hknown|].
  destruct (broadcastMessage_ready_run env (dispatch history env w) text Hready (Hh _))
    as (evs & -> & _ & _ & Ha & _).
  cbn [sends]. rewrite Ha, <- Hknown, map_map. reflexivity.
Qed.

Lemma broadcast_reaches_every_sender_witness :
  addressed
    (sends
       (events (broadcastMessage "hi") calm
          (dispatch [Message hola_from_S3; Ready; Message hola_from_S3] calm
             not_ready_yet))) =
    [("S1@c.us", "hi"); ("S2@c.us", "hi"); ("S3@c.us", "hi")].
Proof.
  pose proof (broadcast_reaches_every_sender calm not_ready_yet
                [Message hola_from_S3; Ready; Message hola_from_S3] "hi"
                (fun i => eq_refl) eq_refl) as (_ & H).
  exact H.
Defined.

(** ** The store under a failing engine *)

(** X9: when the engine refuses the statement, each of the three store
    operations rejects with the error of the engine, after writing it to
    [console.error], and leaves the tables as they were. *)
Theorem store_rejects_on_engine_error (env : Env) (w : World) (e : Error) :
  sqlite_err env (List.length (trace w)) = Some e ->
  (forall i p m,
      Database.addSubscriber i p m env w =
        (pushes [ DbRun (InsertOrIgnoreSubscriber i p m) (Some e);
                  ConsoleError "❌ Error adding subscriber:" (Some e) ] w,
         Rejected e)) /\
  (forall i m,
      Database.logMessage i m env w =
        (pushes [ DbRun (InsertMessage i m) (Some e);
                  ConsoleError "❌ Error logging message:" (Some e) ] w,
         Rejected e)) /\
  Database.getAllSubscribers env w =
    (pushes [ DbAll (Some e);
              ConsoleError "❌ Error getting subscribers:" (Some e) ] w,
     Rejected e).
Proof.
  intros Herr.
  split; [|split]; intros;
    unfold Database.addSubscriber, Database.logMessage, Database.getAllSubscribers;
    step_all; try discriminate; injection Herr as ->;
    f_equal; apply world_ext; trace_norm; reflexivity.
Qed.

Lemma store_rejects_on_engine_error_witness :
  outcome Database.getAllSubscribers engine_down two_subscribers =
    Rejected "SQLITE_IOERR: disk I/O error".
Proof.
  pose proof (store_rejects_on_engine_error engine_down two_subscribers
                "SQLITE_IOERR: disk I/O error" eq_refl) as (_ & _ & H).
  unfold outcome. rewrite H. reflexivity.
Defined.



(** ** The tally of a broadcast *)

Lemma broadcastMessage_read_failure_eq (env : Env) (w : World) (message : string)
    (e : Error) :
  isReady w = true ->
  sqlite_err env (List.length (trace w)) = Some e ->
  broadcastMessage message env w =
    (pushes [ DbAll (Some e);
              ConsoleError "❌ Error getting subscribers:" (Some e);
              ConsoleError "❌ Error broadcasting message:" (Some e) ] w,
     Resolved {| success := 0; failed := 0 |}).
Proof.
  intros Hready Hread. unfold broadcastMessage.
  step_all; try congruence; injection Hread as ->;
    f_equal; apply world_ext; trace_norm; reflexivity.
Qed.

Lemma broadcastMessage_tally (env : Env) (w : World) (message : string) :
  let calls := sends (events (broadcastMessage message) env w) in
  outcome (broadcastMessage message) env w =
    Resolved {| success := delivered calls; failed := undelivered calls |} /\
  (calls = [] \/
   addressed calls = map (fun s => (whatsapp_id s, message)) (subscribers (tables w))).
Proof.
  cbv zeta.
  destruct (isReady w) eqn:Hready.
  - destruct (sqlite_err env (List.length (trace w))) as [e|] eqn:Hread.
    + unfold outcome, events, world_after.
      rewrite (broadcastMessage_read_failure_eq env w message e Hready Hread).
      cbn [fst snd]. rewrite emitted_app with (evs := [_; _; _]) by reflexivity.
      split; [reflexivity|now left].
    + destruct (broadcastMessage_ready_run env w message Hready Hread)
        as (evs & -> & _ & _ & Ha & Hout & _).
      cbn [sends]. split; [exact Hout|now right].
  - unfold outcome, events, world_after.
    rewrite (broadcastMessage_not_ready_eq env w message Hready).
    cbn [fst snd]. rewrite emitted_app with (evs := [_]) by reflexivity.
    split; [reflexivity|now left].
Qed.

(** X11: a broadcast never rejects, and its tally counts the calls that were
    made: [success] is the number of calls of [client.sendMessage] that
    succeeded and [failed] the number that failed.  Either no call was made
    (the client was not ready, the list could not be read or it was empty)
    or every subscriber was called once, in order; so the two counters
    never add up to more than the number of subscribers. *)
Theorem broadcastMessage_counts_calls (env : Env) (w : World) (message : string) :
  let calls := sends (events (broadcastMessage message) env w) in
  outcome (broadcastMessage message) env w =
    Resolved {| success := delivered calls; failed := undelivered calls |} /\
  (calls = [] \/
   addressed calls = map (fun s => (whatsapp_id s, message)) (subscribers (tables w))) /\
  delivered calls + undelivered calls = List.length calls /\
  List.length calls <= List.length (subscribers (tables w)).
Proof.
  intros calls.
  destruct (broadcastMessage_tally env w message) as (Hout & Hcalls).
  fold calls in Hout, Hcalls.
  split; [exact Hout|]. split; [exact Hcalls|].
  split; [apply delivered_undelivered|].
  destruct Hcalls as [->|Ha]; [simpl; lia|].
  rewrite <- addressed_length, Ha, length_map. lia.
Qed.

(** ** POST /api/broadcast *)

Lemma post_api_broadcast_parsed (env : Env) (w : World) (body : Body) :
  post_api_broadcast (Some body) env w =
    (if negb (truthy (message body)) then
       (w, Resolved {| status := 400;
                       json := JObj [("success", JBool false);
                                     ("error", JStr "Message is required")] |})
     else
       match broadcastMessage (the (message body)) env w with
       | (w', Resolved result) =>
           (w', Resolved
                  {| status := 200;
                     json := JObj [("success", JBool true);
                                   ("message", JStr "Broadcast sent");
                                   ("stats",
                                    JObj [("success", JNum (success result));
                                          ("failed", JNum (failed result))])] |})
       | (w', Rejected e) =>
           (push (ConsoleError "❌ Error in broadcast endpoint:" (Some e)) w',
            Resolved {| status := 500;
                        json := JObj [("success", JBool false);
                                      ("error", JStr "Failed to send broadcast message")] |})
       end).
Proof.
  unfold post_api_broadcast, destructure, try_catch, bind at 1.
  cbv beta iota zeta delta [ret].
  destruct (negb (truthy (message body))); [reflexivity|].
  unfold bind.
  destruct (broadcastMessage (the (message body)) env w) as [w' [result|e]]; reflexivity.
Qed.

(** X12: POST /api/broadcast answers 500 only to a request with no body
    object ([req.body] is [undefined]): reading [message] throws, the catch
    of the route writes the TypeError to [console.error] and answers 500
    with [success: false], and no broadcast is made.  With a body object
    the answer is 400 or 200, never 500.  When [message] is missing from it
    or is the empty string the answer is 400 with [success: false] and
    nothing else happens.  Otherwise the route does exactly what
    [broadcastMessage(message)] does and answers 200 with [success: true]
    and the tally as [stats], also when the client is not ready, where the
    tally is [{success: 0, failed: 0}]. *)
Theorem post_api_broadcast_responses (env : Env) (w : World) (req_body : option Body) :
  exists res,
    outcome (post_api_broadcast req_body) env w = Resolved res /\
    (req_body = None ->
     status res = 500 /\
     field "success" (json res) = Some (JBool false) /\
     world_after (post_api_broadcast req_body) env w =
       push (ConsoleError "❌ Error in broadcast endpoint:"
               (Some "Cannot destructure property 'message' of 'req.body' as it is undefined."))
         w) /\
    (forall body,
        req_body = Some body ->
        (status res = 400 \/ status res = 200) /\
        (message body = None \/ message body = Some "" ->
         status res = 400 /\
         field "success" (json res) = Some (JBool false) /\
         world_after (post_api_broadcast req_body) env w = w) /\
        (forall m,
            message body = Some m -> m <> "" ->
            world_after (post_api_broadcast req_body) env w =
              world_after (broadcastMessage m) env w /\
            exists tally,
              outcome (broadcastMessage m) env w = Resolved tally /\
              status res = 200 /\
              field "success" (json res) = Some (JBool true) /\
              field "stats" (json res) =
                Some (JObj [("success", JNum (success tally));
                            ("failed", JNum (failed tally))]) /\
              (isReady w = false -> tally = {| success := 0; failed := 0 |}))).
Proof.
  destruct req_body as [body|].
  - assert (Hnone : Some body = None -> False) by discriminate.
    destruct (truthy (message body)) eqn:Htruthy.
    + destruct (message body) as [m|] eqn:Em; [|discriminate].
      destruct (broadcastMessage_tally env w m) as (Hout & _).
      unfold outcome in Hout.
      destruct (broadcastMessage m env w) as [w' r] eqn:Hrun.
      cbn [snd] in Hout. subst r.
      set (tally := {| success := _; failed := _ |}) in *.
      assert (Hpost : post_api_broadcast (Some body) env w =
                      (w', Resolved
                             {| status := 200;
                                json := JObj [("success", JBool true);
                                              ("message", JStr "Broadcast sent");
                                              ("stats",
                                               JObj [("success", JNum (success tally));
                                                     ("failed", JNum (failed tally))])] |})).
      { rewrite post_api_broadcast_parsed, Em, Htruthy. cbn [negb the].
        rewrite Hrun. reflexivity. }
      unfold outcome, world_after. rewrite Hpost. cbn [fst snd].
      eexists; split; [reflexivity|]. split; [intros H; now elim Hnone|].
      intros body' Hbody. injection Hbody as <-. rewrite Em.
      split; [now right|]. split.
      * unfold truthy in Htruthy.
        intros [H|H]; [discriminate|]. injection H as ->. discriminate.
      * intros m' Hm' _. injection Hm' as <-. rewrite Hrun. cbn [fst snd].
        split; [reflexivity|]. exists tally. repeat split.
        intros Hready.
        pose proof (broadcastMessage_not_ready_eq env w m Hready) as Heq.
        rewrite Hrun in Heq. congruence.
    + assert (Hpost : post_api_broadcast (Some body) env w =
                      (w, Resolved {| status := 400;
                                      json := JObj [("success", JBool false);
                                                    ("error", JStr "Message is required")] |})).
      { rewrite post_api_broadcast_parsed, Htruthy. reflexivity. }
      unfold outcome, world_after. rewrite Hpost. cbn [fst snd].
      eexists; split; [reflexivity|]. split; [intros H; now elim Hnone|].
      intros body' Hbody. injection Hbody as <-.
      split; [now left|]. split.
      * intros _. repeat split.
      * intros m Hm Hnm. rewrite Hm, (truthy_some m Hnm) in Htruthy. discriminate.
  - eexists. split; [reflexivity|]. split.
    + intros _. repeat split; reflexivity.
    + intros body Hbody. discriminate.
Qed.

(** ** POST /api/send before the client is ready *)

(** X13: POST /api/send with both fields, sent before the client is ready,
    is answered 500 with [success: false] and the error "Failed to send
    message": the client is not called and the only effect is the line on
    [console.error]. *)
Theorem post_api_send_not_ready (env : Env) (w : World) (body : Body) (t m : string) :
  isReady w = false ->
  to body = Some t -> message body = Some m -> t <> "" -> m <> "" ->
  post_api_send (Some body) env w =
    (push (ConsoleError "❌ WhatsApp client not ready" None) w,
     Resolved {| status := 500;
                 json := JObj [("success", JBool false);
                               ("error", JStr "Failed to send message")] |}).
Proof.
  intros Hready Ht Hm Hnt Hnm.
  rewrite post_api_send_parsed.
  rewrite Ht, Hm, (truthy_some t Hnt), (truthy_some m Hnm). cbn [negb orb the].
  rewrite (sendMessage_not_ready_eq env w t m Hready). reflexivity.
Qed.

Lemma post_api_send_not_ready_witness :
  outcome (post_api_send (Some {| to := Some "S1@c.us"; message := Some "hi" |})) calm
    not_ready_yet =
    Resolved {| status := 500;
                json := JObj [("success", JBool false);
                              ("error", JStr "Failed to send message")] |}.
Proof.
  unfold outcome.
  rewrite (post_api_send_not_ready calm not_ready_yet
             {| to := Some "S1@c.us"; message := Some "hi" |} "S1@c.us" "hi"
             eq_refl eq_refl eq_refl);
    [reflexivity|discriminate|discriminate].
Defined.

(** ** Creating the tables *)

(** X14: [createTables] always settles, and always runs both statements:
    each of the two writes its line, whatever happened to the other.  The
    promise resolves exactly when both statements succeed.  When the first
    fails the promise rejects with the error of the first, also when the
    second succeeds (its [resolve] comes too late) or fails too; when only
    the second fails it rejects with the error of the second. *)
Theorem createTables_settles (err1 err2 : option Error) :
  exists settlement,
    snd (Database.createTables err1 err2) = Some settlement /\
    (settlement = Resolved tt <-> err1 = None /\ err2 = None) /\
    (forall e1, err1 = Some e1 -> settlement = Rejected e1) /\
    (forall e2, err1 = None -> err2 = Some e2 -> settlement = Rejected e2) /\
    fst (Database.createTables err1 err2) =
      [ match err1 with
        | Some e => ConsoleError "❌ Error creating subscribers table:" (Some e)
        | None => ConsoleLog "✅ Subscribers table ready" None
        end;
        match err2 with
        | Some e => ConsoleError "❌ Error creating messages table:" (Some e)
        | None => ConsoleLog "✅ Messages table ready" None
        end ].
Proof.
  destruct err1 as [e1|], err2 as [e2|]; cbn; eexists; (split; [reflexivity|]);
    (split; [split; [discriminate || auto|intros [H1 H2]; discriminate || auto]|]);
    (split; [intros e H; discriminate || (injection H as ->; reflexivity)|]);
    (split; [intros e H1 H2; discriminate || (injection H2 as ->; reflexivity)|]);
    reflexivity.
Qed.

(** ** Starting the service *)

(** X15: [initialize] reports [true] whatever the client answers.  It calls
    [client.initialize()] once; when that call fails the failure is only
    written to [console.error], and the value is [true] all the same. *)
Theorem initialize_reports_true (env : Env) (w : World) :
  let err := client_initialize_err env (List.length (trace w)) in
  initialize env w =
    (pushes
       (ClientInitialize err ::
        match err with
        | None => []
        | Some e => [ConsoleError "❌ Error initializing WhatsApp client:" (Some e)]
        end)
       w,
     Resolved true).
Proof.
  cbv zeta. unfold initialize.
  step_all; same_answers; f_equal; apply world_ext; trace_norm; reflexivity.
Qed.

(** ** Addresses *)

Lemma split_prefix (p rest : string) :
  (forall i, get i p <> Some "@"%char) ->
  split "@"%char (p +++ String "@"%char rest) = p :: split "@"%char rest /\
  split "@"%char p = [p].
Proof.
  induction p as [|c r IH]; intros Hfree.
  - split; reflexivity.
  - assert (Hc : Ascii.eqb c "@"%char = false).
    { apply Ascii.eqb_neq. intros ->. now apply (Hfree 0). }
    destruct IH as [IH1 IH2]; [intros i; apply (Hfree (S i))|].
    cbn [String.append split]. rewrite Hc, IH1, IH2. split; reflexivity.
Qed.

(** X16: the derived phone number of an address is its part before the
    first ['@'], whatever follows: for a prefix with no ['@'] in it, the
    address made of the prefix, ['@'] and any rest, with further ['@'] or
    none, has the prefix as phone number; and an address with no ['@'] is
    its own phone number. *)
Theorem phoneNumber_of_address (p rest : string) :
  (forall i, get i p <> Some "@"%char) ->
  phoneNumber (p +++ String "@"%char rest) = p /\
  phoneNumber p = p.
Proof.
  intros Hfree. destruct (split_prefix p rest Hfree) as [H1 H2].
  unfold phoneNumber. rewrite H1, H2. split; reflexivity.
Qed.

Lemma phoneNumber_of_address_witness :
  phoneNumber ("120363-1234" +++ String "@"%char "g.us@x") = "120363-1234".
Proof.
  apply (phoneNumber_of_address "120363-1234" "g.us@x").
  intros i.
  do 12 (destruct i as [|i]; [discriminate|]). discriminate.
Defined.

(** ** Messages and their subscribers *)

Lemma present_in (i : string) (rows : list Subscriber) :
  existsb (Database.has_id i) rows = true -> In i (map whatsapp_id rows).
Proof.
  induction rows as [|row rows IH]; simpl; [discriminate|].
  unfold Database.has_id at 1.
  destruct (whatsapp_id row =? i) eqn:E; simpl.
  - apply String.eqb_eq in E. auto.
  - auto.
Qed.

(** The three states of the tables the message listener can leave. *)
Lemma on_message_tables (env : Env) (w : World) (msg : Msg) :
  let stored :=
    Database.exec
      (InsertOrIgnoreSubscriber (from msg) (phoneNumber (from msg)) (body msg))
      (current_timestamp env (List.length (trace w) + 1)) (tables w) in
  tables (world_after (on (Message msg)) env w) = tables w \/
  tables (world_after (on (Message msg)) env w) = stored \/
  tables (world_after (on (Message msg)) env w) =
    Database.exec (InsertMessage (from msg) (body msg))
      (current_timestamp env (List.length (trace w) + 3)) stored.
Proof.
  cbv zeta. unfold world_after, on, on_message, handleCommands.
  step_all; trace_norm; rewrite ?length_app; cbn [List.length]; auto.
Qed.

Lemma exec_referential (sql : Statement) (now : Z) (t : Tables) :
  (forall i m, sql = InsertMessage i m -> In i (map whatsapp_id (subscribers t))) ->
  referential t -> referential (Database.exec sql now t).
Proof.
  unfold referential. intros Hsql Href.
  destruct sql as [i p m|i m]; cbn [Database.exec].
  - destruct (existsb (Database.has_id i) (subscribers t)); auto.
    cbn [subscribers messages]. eapply Forall_impl; [|exact Href].
    cbv beta. intros row Hrow. rewrite map_app. apply in_or_app. now left.
  - cbn [subscribers messages]. apply Forall_app. split; auto.
    constructor; [|constructor]. cbn [msg_whatsapp_id]. now apply (Hsql i m).
Qed.

Lemma on_referential (ev : ClientEvent) (env : Env) (w : World) :
  referential (tables w) -> referential (tables (world_after (on ev) env w)).
Proof.
  intros Href. destruct (is_message ev) eqn:E.
  - destruct ev as [qr| |r|msg|error]; try discriminate.
    assert (Hstored : referential
                        (Database.exec
                           (InsertOrIgnoreSubscriber (from msg) (phoneNumber (from msg))
                              (body msg))
                           (current_timestamp env (List.length (trace w) + 1)) (tables w))).
    { apply exec_referential; [discriminate|exact Href]. }
    destruct (on_message_tables env w msg) as [->|[->| ->]]; auto.
    apply exec_referential; auto.
    intros i m H. injection H as <- <-.
    apply present_in, exec_insert_present.
  - now rewrite (on_same_store ev env w E).
Qed.

(** X17: the foreign key from [messages] to [subscribers] is declared but
    not enforced by the connection, and the listeners keep it all the same:
    a message is logged only after the INSERT OR IGNORE of its sender went
    through, so over any history of client events, with any answers of the
    engine, every message row names an identity that has a subscriber
    row. *)
Theorem messages_have_subscribers (env : Env) (w : World) (history : list ClientEvent) :
  referential (tables w) ->
  referential (tables (dispatch history env w)).
Proof.
  revert w. induction history as [|ev history IH]; intros w Href; cbn [dispatch]; auto.
  apply IH. now apply on_referential.
Qed.

Lemma messages_have_subscribers_witness :
  referential
    (tables (dispatch [Message hola_from_S3; Qr "2@abc"; Message hola_from_S3]
               fourth_refused initial_world)).
Proof.
  apply (messages_have_subscribers fourth_refused initial_world
           [Message hola_from_S3; Qr "2@abc"; Message hola_from_S3]).
  constructor.
Defined.

(** ** The log follows the messages *)

Lemma replies_app (l1 l2 : list Event) : replies (l1 ++ l2) = replies l1 ++ replies l2.
Proof.
  induction l1 as [|e l1 IH]; simpl; auto.
  destruct e; simpl; auto. now rewrite IH.
Qed.

Lemma on_logs (ev : ClientEvent) (env : Env) (w : World) :
  engine_healthy env ->
  map logged (messages (tables (world_after (on ev) env w))) =
    map logged (messages (tables w)) ++
    map (fun msg => (from msg, body msg)) (messages_of [ev]) /\
  replies (events (on ev) env w) = flat_map reply_to (messages_of [ev]).
Proof.
  intros Hh. destruct (is_message ev) eqn:E.
  - destruct ev as [qr| |r|msg|error]; try discriminate.
    destruct (on_message_healthy env w msg Hh) as (Ht & Hr & _).
    cbn [messages_of map flat_map]. rewrite app_nil_r. split; [|exact Hr].
    rewrite Ht. cbn [Database.exec messages].
    destruct (existsb _ _); cbn [messages]; rewrite map_app; reflexivity.
  - rewrite (on_same_store ev env w E).
    assert (Hnone : messages_of [ev] = []) by (destruct ev; discriminate || reflexivity).
    rewrite Hnone. cbn [map flat_map]. rewrite app_nil_r. split; [reflexivity|].
    unfold events, world_after.
    destruct ev as [qr| |r|msg|error]; try discriminate;
      unfold on, on_qr, on_ready, on_disconnected, on_auth_failure;
      step_all; cbn [fst];
      (erewrite emitted_app by (trace_norm; reflexivity)); reflexivity.
Qed.

Lemma dispatch_logs (history : list ClientEvent) (env : Env) :
  engine_healthy env ->
  forall w : World,
  map logged (messages (tables (dispatch history env w))) =
    map logged (messages (tables w)) ++
    map (fun msg => (from msg, body msg)) (messages_of history) /\
  exists evs,
    trace (dispatch history env w) = trace w ++ evs /\
    replies evs = flat_map reply_to (messages_of history).
Proof.
  intros Hh. induction history as [|ev history IH]; intros w; cbn [dispatch].
  - cbn [messages_of map flat_map]. rewrite app_nil_r. split; auto.
    exists []. now rewrite app_nil_r.
  - destruct (IH (world_after (on ev) env w)) as (Hlog & evs & Ht & Hr).
    destruct (on_logs ev env w Hh) as (Hlog1 & Hr1).
    assert (Hsplit : messages_of (ev :: history) = messages_of [ev] ++ messages_of history).
    { destruct ev; reflexivity. }
    rewrite Hsplit. split.
    + rewrite Hlog, Hlog1, map_app. now rewrite app_assoc.
    + exists (events (on ev) env w ++ evs). split.
      * rewrite Ht, (events_extends (on ev) env w (extends_on ev)).
        now rewrite app_assoc.
      * rewrite replies_app, Hr, Hr1, flat_map_app. reflexivity.
Qed.

(** X18: with an engine that accepts the statements, every inbound message
    is logged once and in the order of arrival: after any history of client
    events the messages table holds the rows there were, followed by one
    row per message of the history, with its sender and its text, in the
    order of the history. *)
Theorem every_message_is_logged (env : Env) (w : World) (history : list ClientEvent) :
  engine_healthy env ->
  map logged (messages (tables (dispatch history env w))) =
    map logged (messages (tables w)) ++
    map (fun msg => (from msg, body msg)) (messages_of history).
Proof.
  intros Hh. now destruct (dispatch_logs history env Hh w).
Qed.

Lemma every_message_is_logged_witness :
  map logged
    (messages (tables (dispatch [Message hola_from_S3; Ready; Message hola_from_S3]
                         calm two_subscribers))) =
    [("S3@c.us", "Hola"); ("S3@c.us", "Hola")].
Proof.
  apply (every_message_is_logged calm two_subscribers
           [Message hola_from_S3; Ready; Message hola_from_S3] (fun i => eq_refl)).
Defined.

(** X19: with an engine that accepts the statements, the replies over a
    history of client events are the answers of the command table to the
    messages of the history, in the order of the messages: a command is
    answered once, a text outside the table and the other events are not
    answered at all, also when an earlier reply failed. *)
Theorem replies_follow_messages (env : Env) (w : World) (history : list ClientEvent) :
  engine_healthy env ->
  replies (emitted w (dispatch history env w)) = flat_map reply_to (messages_of history).
Proof.
  intros Hh. destruct (dispatch_logs history env Hh w) as (_ & evs & Ht & Hr).
  now rewrite (emitted_app _ _ _ Ht).
Qed.

Lemma replies_follow_messages_witness :
  replies (emitted two_subscribers
             (dispatch [Message hola_from_S3; Ready; Message hola_from_S3]
                calm two_subscribers)) =
    [greeting; greeting].
Proof.
  apply (replies_follow_messages calm two_subscribers
           [Message hola_from_S3; Ready; Message hola_from_S3] (fun i => eq_refl)).
Defined.
